(** * Cluster bootstrap: the join loop and remote-node resolution

    A shallow embedding of [cluster/bootstrap/joiner.go] (the [Joiner] and
    its [Do] method) and of the cluster-state reader exercised by
    [cluster/service_test.go], followed by the properties of the join
    protocol: success short-circuit, leader follow, self skip, exhaustion,
    cancellation, back-off and telemetry independence.

    Go values are modelled as the code has them: strings as [string], the
    [remoteNodes] map by the sequence of entries its [range] loop yields,
    interfaces ([PeerJoiner], [context.Context]) as records of functions over
    an explicit world state, and every RPC or wait as an event of the run. *)

From Stdlib Require Import ZArith DecimalString.
From Stdlib Require OrderedTypeEx.
From stdpp Require Import base option list strings gmap fin_maps.

Open Scope string_scope.
Open Scope list_scope.

(** ** Fragments of the Go standard library used by the code *)

Module GoStrings.

(** [strings.Join(elems, sep)]. *)
Definition Join (elems : list string) (sep : string) : string :=
  String.concat sep elems.

(** [strings.HasPrefix(s, prefix)]. *)
Fixpoint HasPrefix (s prefix : string) {struct prefix} : bool :=
  match prefix, s with
  | EmptyString, _ => true
  | String c p, String d s' => if Ascii.eqb c d then HasPrefix s' p else false
  | String _ _, EmptyString => false
  end.

(** [strings.Contains(s, substr)]. *)
Fixpoint Contains (s substr : string) : bool :=
  if HasPrefix s substr then true
  else match s with
       | EmptyString => false
       | String _ s' => Contains s' substr
       end.

(** What [Contains] decides: [substr] occurs somewhere inside [s]. *)
Definition Substring (substr s : string) : Prop :=
  ∃ before after, s = before +:+ substr +:+ after.

(** [strconv.Itoa] / the [%d] verb on an [int]. *)
Definition Itoa (n : Z) : string := NilZero.string_of_int (Z.to_int n).

End GoStrings.

Module GoFmt.

(** Insertion of an entry into a key-sorted entry list; [fmt] prints maps
    with their keys in increasing (byte-wise) order. *)
Fixpoint insertByKey (e : string * string) (l : list (string * string))
  : list (string * string) :=
  match l with
  | [] => [e]
  | e' :: l' =>
      if String.leb e.1 e'.1 then e :: l else e' :: insertByKey e l'
  end.

Definition sortByKey (l : list (string * string)) : list (string * string) :=
  foldr insertByKey [] l.

Definition fmtEntry (e : string * string) : string := e.1 +:+ ":" +:+ e.2.

(** The [%v] verb on a [map[string]string]: [map[k1:v1 k2:v2]]. *)
Definition fmtMap (m : list (string * string)) : string :=
  "map[" +:+ GoStrings.Join (fmtEntry <$> sortByKey m) " " +:+ "]".

End GoFmt.

(** ** gRPC status codes ([google.golang.org/grpc/codes]) *)

Module codes.

Inductive Code : Set :=
| OK | Canceled | Unknown | InvalidArgument | DeadlineExceeded | NotFound
| AlreadyExists | PermissionDenied | ResourceExhausted | FailedPrecondition
| Aborted | OutOfRange | Unimplemented | Internal | Unavailable | DataLoss
| Unauthenticated.

#[global] Instance Code_eq_dec : EqDecision Code.
Proof. solve_decision. Defined.

Definition String (c : Code) : string :=
  match c with
  | OK => "OK" | Canceled => "Canceled" | Unknown => "Unknown"
  | InvalidArgument => "InvalidArgument"
  | DeadlineExceeded => "DeadlineExceeded" | NotFound => "NotFound"
  | AlreadyExists => "AlreadyExists"
  | PermissionDenied => "PermissionDenied"
  | ResourceExhausted => "ResourceExhausted"
  | FailedPrecondition => "FailedPrecondition" | Aborted => "Aborted"
  | OutOfRange => "OutOfRange" | Unimplemented => "Unimplemented"
  | Internal => "Internal" | Unavailable => "Unavailable"
  | DataLoss => "DataLoss" | Unauthenticated => "Unauthenticated"
  end.

End codes.

(** ** Go [error] values that reach the joiner *)

(** The two errors a done [context.Context] reports through [Err()]. *)
Inductive ctxError : Set :=
| ContextCanceled
| ContextDeadlineExceeded.

Inductive error : Set :=
| ctxErr (e : ctxError)
    (* [context.Canceled], [context.DeadlineExceeded] *)
| statusError (c : codes.Code) (desc : string)
    (* an error carrying a gRPC status, as [status.Error(c, desc)] builds *)
| errorString (s : string).
    (* [errors.New(s)], [fmt.Errorf] without a wrapping verb *)

#[global] Instance ctxError_eq_dec : EqDecision ctxError.
Proof. solve_decision. Defined.

#[global] Instance error_eq_dec : EqDecision error.
Proof. solve_decision. Defined.

(** [err.Error()], which is also what the [%v] verb prints for an error. *)
Definition Error (e : error) : string :=
  match e with
  | ctxErr ContextCanceled => "context canceled"
  | ctxErr ContextDeadlineExceeded => "context deadline exceeded"
  | statusError c desc =>
      "rpc error: code = " +:+ codes.String c +:+ " desc = " +:+ desc
  | errorString s => s
  end.

Module status.

Record Status : Set := mkStatus { Code : codes.Code; Message : string }.

(** [status.Convert(err)] for a non-nil [err]: the status the error
    carries, or [Unknown] with the error's text. *)
Definition Convert (e : error) : Status :=
  match e with
  | statusError c desc => mkStatus c desc
  | _ => mkStatus codes.Unknown (Error e)
  end.

End status.

(** ** [cluster/bootstrap]: wire types, collaborators and the joiner *)

Module bootstrap.

(** [cmd.JoinPeerRequest]. *)
Record JoinPeerRequest : Set :=
  mkJoinPeerRequest { Id : string; Address : string; Voter : bool }.

(** [cmd.JoinPeerResponse]; the joiner reads its leader field only. *)
Record JoinPeerResponse : Set := mkJoinPeerResponse { Leader : string }.

#[global] Instance JoinPeerRequest_eq_dec : EqDecision JoinPeerRequest.
Proof. solve_decision. Defined.

#[global] Instance JoinPeerResponse_eq_dec : EqDecision JoinPeerResponse.
Proof. solve_decision. Defined.

(** Modelled from the spec: the getter [GetLeader] of [cmd.JoinPeerResponse]
    belongs to the generated package [cluster/proto/api], which is not part
    of the sources at hand.  The response "carries, at minimum, an optional
    leader address" that "may be empty"; a response pointer that is nil
    ([None]) carries no leader, so the getter reports the empty string. *)
Definition GetLeader (resp : option JoinPeerResponse) : string :=
  match resp with
  | Some r => Leader r
  | None => ""
  end.

(** The tracing span of [Do]: the arguments of [sentry.StartSpan] and the
    data attached by [span.SetData]. *)
Inductive SpanOption : Set :=
| WithOpName (name : string)
| WithDescription (description : string).

Record Span : Set := mkSpan {
  spanOperation : string;
  spanOptions : list SpanOption;
  spanData : list (string * list (string * string))
}.

Definition StartSpan (operation : string) (options : list SpanOption) : Span :=
  mkSpan operation options [].

Definition SetData (s : Span) (name : string) (value : list (string * string))
  : Span :=
  mkSpan (spanOperation s) (spanOptions s) (spanData s ++ [(name, value)]).

(** Which call site of [Do] issued a [Join]: the candidate attempt of the
    entry [name] (line 85) or the leader follow-up (line 96). *)
Inductive CallSite : Set :=
| Candidate (name : string)
| LeaderFollow.

(** What a run of [Do] does to the outside: the [Join] RPCs with their
    destination, payload and result, and the waits of the [select]
    statement with the timer's duration in milliseconds and the way they
    ended ([Some e]: the context was done and reports [e]; [None]: the timer
    fired). *)
Inductive Event : Set :=
| EvJoin (site : CallSite) (addr : string) (req : JoinPeerRequest)
         (resp : option JoinPeerResponse) (err : option error)
| EvSelect (ms : Z) (done : option ctxError).

(** How one pass through the loop body ends: a [return] of [Do], or the
    next iteration with the failures recorded so far. *)
Inductive Flow : Set :=
| Return (leader : string) (err : option error)
| Next (errors : list string).

Section World.

(** The state of everything outside [Do]: peers, network, clock and the
    cancellation of the caller's context. *)
Context {W : Type}.

(** [context.Context], as far as [Do] and its collaborators use it:
    [ctxWait d] is the [select] between [ctx.Done()] and [time.After(d)]
    ([d] in milliseconds), and [ctxSpan] the span stored in the context. *)
Record Ctx : Type := mkCtx {
  ctxWait : Z → W → option ctxError * W;
  ctxSpan : option Span
}.

(** [span.Context()]: the context the span was started from, carrying the
    span as a value; its [Done] channel is that of its parent. *)
Definition spanContext (parent : Ctx) (s : Span) : Ctx :=
  mkCtx (ctxWait parent) (Some s).

(** The [PeerJoiner] interface: one blocking [Join] call. *)
Record PeerJoiner : Type := mkPeerJoiner {
  Join : Ctx → string → JoinPeerRequest → W →
         (option JoinPeerResponse * option error) * W
}.

Record Joiner : Type := mkJoiner {
  localRaftAddr : string;
  localNodeID : string;
  voter : bool;
  peerJoiner : PeerJoiner
}.

Definition NewJoiner (peerJoiner : PeerJoiner) (localNodeID : string)
    (localRaftAddr : string) (voter : bool) : Joiner :=
  mkJoiner localRaftAddr localNodeID voter peerJoiner.

(** Computations of [Do]: they read and change the world and emit events. *)
Definition Act (A : Type) : Type := W → A * list Event * W.

#[global] Instance Act_ret : MRet Act := λ A a w, (a, [], w).

#[global] Instance Act_bind : MBind Act := λ A B k m w,
  let '(a, t1, w1) := m w in
  let '(b, t2, w2) := k a w1 in
  (b, t1 ++ t2, w2).

(** [j.peerJoiner.Join(ctx, addr, req)], observed. *)
Definition callJoin (j : Joiner) (site : CallSite) (ctx : Ctx) (addr : string)
    (req : JoinPeerRequest) : Act (option JoinPeerResponse * option error) :=
  λ w, let '(r, w') := Join (peerJoiner j) ctx addr req w in
       (r, [EvJoin site addr req r.1 r.2], w').

(** The [select] of lines 109-114, observed. *)
Definition selectDone (ctx : Ctx) (ms : Z) : Act (option ctxError) :=
  λ w, let '(d, w') := ctxWait ctx ms w in (d, [EvSelect ms d], w').

(** The test of line 94 on a failed attempt: a resource-exhausted status
    together with a response that names a leader. *)
Definition redirects (e : error) (resp : option JoinPeerResponse) : bool :=
  let st := status.Convert e in
  let leader := GetLeader resp in
  bool_decide (status.Code st = codes.ResourceExhausted)
  && negb (String.eqb leader "").

(** Lines 85-104: the candidate attempt and, on a redirect, the leader
    follow-up; a failure is appended to [errors]. *)
Definition attempt (j : Joiner) (ctx : Ctx) (req : JoinPeerRequest)
    (errors : list string) (name addr : string) : Act Flow :=
  '(resp, err) ← callJoin j (Candidate name) ctx addr req;
  match err with
  | None => mret (Return addr None)
  | Some e =>
      let leader := GetLeader resp in
      if redirects e resp then
        '(_, err) ← callJoin j LeaderFollow ctx leader req;
        match err with
        | None => mret (Return leader None)
        | Some e =>
            mret (Next (errors ++ ["leader(" +:+ leader +:+ "): " +:+ Error e]))
        end
      else
        mret (Next (errors ++ [name +:+ "(" +:+ addr +:+ "): " +:+ Error e]))
  end.

(** Lines 109-114: wait 50ms unless the context is done first. *)
Definition backoff (ctx : Ctx) (errors : list string) : Act Flow :=
  done ← selectDone ctx 50;
  match done with
  | Some e => mret (Return "" (Some (ctxErr e)))
  | None => mret (Next errors)
  end.

(** One iteration of the [for ... range remoteNodes] loop. *)
Definition body (j : Joiner) (ctx : Ctx) (req : JoinPeerRequest)
    (errors : list string) (entry : string * string) : Act Flow :=
  let '(name, addr) := entry in
  if String.eqb name (localNodeID j) then mret (Next errors)
  else
    f ← attempt j ctx req errors name addr;
    match f with
    | Return leader err => mret (Return leader err)
    | Next errors => backoff ctx errors
    end.

(** The loop over the entries in the order [range] yields them. *)
Fixpoint rangeLoop (j : Joiner) (ctx : Ctx) (req : JoinPeerRequest)
    (entries : list (string * string)) (errors : list string) : Act Flow :=
  match entries with
  | [] => mret (Next errors)
  | entry :: rest =>
      f ← body j ctx req errors entry;
      match f with
      | Return leader err => mret (Return leader err)
      | Next errors => rangeLoop j ctx req rest errors
      end
  end.

(** Lines 117-121: the error returned once the loop has run out. *)
Definition exhausted (remoteNodes : list (string * string))
    (errors : list string) : error :=
  if (0 <? length errors)%nat
  then errorString ("could not join a cluster from "
                    +:+ GoFmt.fmtMap remoteNodes +:+ ": "
                    +:+ GoStrings.Join errors "; ")
  else errorString ("could not join a cluster from "
                    +:+ GoFmt.fmtMap remoteNodes).

(** The loop from the state it is in (entries still to come, failures
    recorded so far), followed by lines 117-121. *)
Definition loopThenReturn (j : Joiner) (ctx : Ctx) (req : JoinPeerRequest)
    (remoteNodes entries : list (string * string)) (errors : list string)
  : Act (string * option error) :=
  f ← rangeLoop j ctx req entries errors;
  match f with
  | Return leader err => mret (leader, err)
  | Next errors => mret ("", Some (exhausted remoteNodes errors))
  end.

(** Lines 50-58: the span that is started when telemetry is on, and the
    context the rest of [Do] then uses.  The span is held by reference and
    [SetData] writes to it before the loop starts: the span a callee finds
    in the context carries the servers from the first [Join] on. *)
Definition joinSpan : Span :=
  StartSpan "raft.bootstrap.join"
    [WithOpName "join"; WithDescription "Attempt to join an existing cluster"].

Definition joinCtx (sentryEnabled : bool) (ctx : Ctx)
    (remoteNodes : list (string * string)) : Ctx :=
  if sentryEnabled
  then spanContext ctx (SetData joinSpan "servers" remoteNodes)
  else ctx.

(** Line 63: the request, built once per call. *)
Definition joinRequest (j : Joiner) : JoinPeerRequest :=
  mkJoinPeerRequest (localNodeID j) (localRaftAddr j) (voter j).

(** A finished call of [Do]: the two results, the events in the order they
    happened, the spans handed to the tracer when the call returns, and the
    world afterwards. *)
Record Run : Type := mkRun {
  leaderAddr : string;
  err : option error;
  events : list Event;
  spans : list Span;
  world : W
}.

(** The method [Do] of [Joiner].  [sentryEnabled] is the value of
    [entSentry.Enabled()]; [remoteNodes] lists the entries of the map in the
    order the [range] statement yields them in this call (Go leaves the
    order open, and the keys of a map are pairwise different).  The logger
    only writes, and is left out. *)
Definition Do (j : Joiner) (sentryEnabled : bool) (ctx : Ctx)
    (remoteNodes : list (string * string)) (w : W) : Run :=
  let ctx' := joinCtx sentryEnabled ctx remoteNodes in
  let req := joinRequest j in
  let '(leader, err, t, w') :=
    loopThenReturn j ctx' req remoteNodes remoteNodes [] w in
  mkRun leader err t
        (if sentryEnabled then [SetData joinSpan "servers" remoteNodes] else [])
        w'.

(** The observable part of a run. *)
Definition outcome (r : Run) : string * option error * list Event * W :=
  (leaderAddr r, err r, events r, world r).

End World.

Arguments Ctx : clear implicits.
Arguments PeerJoiner : clear implicits.
Arguments Joiner : clear implicits.
Arguments Run : clear implicits.
Arguments Act : clear implicits.

(** *** Runs of the loop, as sequences of events

    The events a pass through the loop body can produce, case by case, and
    the events of the whole loop.  [self] is the local node id. *)

Definition afterSelect (done : option ctxError) (errors : list string) : Flow :=
  match done with
  | Some e => Return "" (Some (ctxErr e))
  | None => Next errors
  end.

Inductive Turn (self : string) (req : JoinPeerRequest) (errors : list string)
    (name addr : string) : Flow → list Event → Prop :=
| TurnSkip :
    name = self →
    Turn self req errors name addr (Next errors) []
| TurnJoined resp :
    name ≠ self →
    Turn self req errors name addr (Return addr None)
      [EvJoin (Candidate name) addr req resp None]
| TurnLeaderJoined resp e resp2 :
    name ≠ self →
    redirects e resp = true →
    Turn self req errors name addr (Return (GetLeader resp) None)
      [EvJoin (Candidate name) addr req resp (Some e);
       EvJoin LeaderFollow (GetLeader resp) req resp2 None]
| TurnLeaderFailed resp e resp2 e2 done :
    name ≠ self →
    redirects e resp = true →
    Turn self req errors name addr
      (afterSelect done
         (errors ++ ["leader(" +:+ GetLeader resp +:+ "): " +:+ Error e2]))
      [EvJoin (Candidate name) addr req resp (Some e);
       EvJoin LeaderFollow (GetLeader resp) req resp2 (Some e2);
       EvSelect 50 done]
| TurnFailed resp e done :
    name ≠ self →
    redirects e resp = false →
    Turn self req errors name addr
      (afterSelect done
         (errors ++ [name +:+ "(" +:+ addr +:+ "): " +:+ Error e]))
      [EvJoin (Candidate name) addr req resp (Some e); EvSelect 50 done].

Inductive Loop (self : string) (req : JoinPeerRequest)
  : list (string * string) → list string → Flow → list Event → Prop :=
| LoopEnd errors :
    Loop self req [] errors (Next errors) []
| LoopReturn name addr rest errors leader err t :
    Turn self req errors name addr (Return leader err) t →
    Loop self req ((name, addr) :: rest) errors (Return leader err) t
| LoopNext name addr rest errors errors' t f t' :
    Turn self req errors name addr (Next errors') t →
    Loop self req rest errors' f t' →
    Loop self req ((name, addr) :: rest) errors f (t ++ t').

(** The events at which [Do] returns, with what it then returns: a [Join]
    that succeeded, or a wait cut short by the context. *)
Definition terminal (ev : Event) : option (string * option error) :=
  match ev with
  | EvJoin _ addr _ _ None => Some (addr, None)
  | EvSelect _ (Some e) => Some ("", Some (ctxErr e))
  | _ => None
  end.

(** A loop run returns exactly at its first terminal event, with what that
    event determines; a run that falls through has none. *)
Definition returnsAtTerminal (f : Flow) (t : list Event) : Prop :=
  match f with
  | Next _ => Forall (λ ev, terminal ev = None) t
  | Return leader err =>
      ∃ t0 ev, t = t0 ++ [ev] ∧ Forall (λ ev, terminal ev = None) t0
               ∧ terminal ev = Some (leader, err)
  end.

(** The text under which a failed [Join] is recorded in [errors]. *)
Definition recordOf (site : CallSite) (addr : string) (e : error) : string :=
  match site with
  | Candidate name => name +:+ "(" +:+ addr +:+ "): " +:+ Error e
  | LeaderFollow => "leader(" +:+ addr +:+ "): " +:+ Error e
  end.

(** A failed [Join] that ends the turn of its candidate: a leader follow-up,
    or a candidate attempt that is not redirected. *)
Definition endsTurn (site : CallSite) (e : error)
    (resp : option JoinPeerResponse) : bool :=
  match site with
  | Candidate _ => negb (redirects e resp)
  | LeaderFollow => true
  end.


(** Whether an event is a [Join] that returned an error. *)
Definition joinFailed (ev : Event) : bool :=
  match ev with
  | EvJoin _ _ _ _ None => false
  | _ => true
  end.

(** Whether an event is a [Join] sent to [addr]. *)
Definition joinsTo (addr : string) (ev : Event) : bool :=
  match ev with
  | EvJoin _ a _ _ _ => String.eqb a addr
  | EvSelect _ _ => false
  end.


End bootstrap.

(** ** [cluster]: the cluster-state reader of the tests and the resolver *)

Module cluster.

(** [mockClusterStateReader] of [service_test.go]: the reader's view of the
    membership, node id to address, the empty address meaning that the node
    cannot be resolved. *)
Record mockClusterStateReader : Type := mkMock {
  addresses : gmap string string;
  localName : string
}.

Definition NodeAddress (m : mockClusterStateReader) (id : string) : string :=
  default "" (addresses m !! id).

Definition NodeHostname (m : mockClusterStateReader) (nodeName : string)
  : string * bool :=
  match addresses m !! nodeName with
  | Some addr => (addr, true)
  | None => ("", false)
  end.

Definition LocalName (m : mockClusterStateReader) : string := localName m.

(** [fmt.Sprintf("%s:%d", addr, port)]. *)
Definition hostPort (addr : string) (port : Z) : string :=
  addr +:+ ":" +:+ GoStrings.Itoa port.

Definition AllClusterMembers (m : mockClusterStateReader) (raftPort : Z)
  : gmap string string :=
  omap (λ addr, if decide (addr = "") then None
                else Some (hostPort addr raftPort))
       (addresses m).

(** Reading a [map[string]int] at a key: the zero value when it is absent. *)
Definition portOf (portByNode : gmap string Z) (id : string) : Z :=
  default 0%Z (portByNode !! id).

(** Modelled from the spec: [bootstrap.ResolveRemoteNodes] is called by the
    tests of [service_test.go] but its body is not part of the sources at
    hand.  "For each node id known to the reader, resolve its address; if
    resolution yields a non-empty address, combine it with the node's
    configured port and include it; if resolution yields empty, the node is
    silently omitted from the result."  The node ids known to the reader are
    the keys of its membership view, and the configured port of a node is
    read from [portByNode]. *)
Definition ResolveRemoteNodes (reader : mockClusterStateReader)
    (portByNode : gmap string Z) : gmap string string :=
  map_imap (λ id _,
              let addr := NodeAddress reader id in
              if decide (addr = "") then None
              else Some (hostPort addr (portOf portByNode id)))
           (addresses reader).

(** The members the reader can resolve. *)
Definition resolvable (reader : mockClusterStateReader) : gmap string string :=
  filter (λ kv, kv.2 ≠ "") (addresses reader).

End cluster.

(** ** Concrete collaborators, for running the code on examples *)

Module scenario.
Import bootstrap.

(** The world of the examples: the number of back-off waits that ran to the
    end of their timer. *)
Definition clock : Type := nat.

(** A context that is never done ([context.Background()]). *)
Definition background : Ctx clock := mkCtx (λ _ w, (None, S w)) None.

(** A context that is cancelled while the wait number [n] (from 0) is under
    way, and stays cancelled. *)
Definition cancelledDuring (n : nat) : Ctx clock :=
  mkCtx (λ _ w, if (n <=? w)%nat then (Some ContextCanceled, w)
                else (None, S w))
        None.

Definition refused : option JoinPeerResponse * option error :=
  (None, Some (statusError codes.Unavailable "connection refused")).

Definition accepted : option JoinPeerResponse * option error :=
  (Some (mkJoinPeerResponse ""), None).

Definition notLeader (leader : string)
  : option JoinPeerResponse * option error :=
  (Some (mkJoinPeerResponse leader),
   Some (statusError codes.ResourceExhausted "not the leader")).

Fixpoint answer (tbl : list (string * (option JoinPeerResponse * option error)))
    (addr : string) : option JoinPeerResponse * option error :=
  match tbl with
  | [] => refused
  | (a, r) :: tbl' => if String.eqb a addr then r else answer tbl' addr
  end.

(** Peers whose answer depends on the address dialled only; an address that
    is not in the table refuses the connection. *)
Definition tablePeer
    (tbl : list (string * (option JoinPeerResponse * option error)))
  : PeerJoiner clock :=
  mkPeerJoiner (λ _ addr _ w, (answer tbl addr, w)).

Definition addr1 : string := "10.0.0.1:8300".
Definition addr2 : string := "10.0.0.2:8300".
Definition addr3 : string := "10.0.0.3:8300".

(** The local node is [node1], listening on [addr1]. *)
Definition node1 (pj : PeerJoiner clock) : Joiner clock :=
  NewJoiner pj "node1" addr1 true.

Definition threeNodes : list (string * string) :=
  [("node1", addr1); ("node2", addr2); ("node3", addr3)].

(** The request every [Join] of [node1] carries. *)
Definition req1 : JoinPeerRequest := mkJoinPeerRequest "node1" addr1 true.

Definition refusal : error :=
  statusError codes.Unavailable "connection refused".

(** A peer at capacity that answers with an error and no response. *)
Definition busy : option JoinPeerResponse * option error :=
  (None, Some (statusError codes.ResourceExhausted "too many requests")).

(** A peer joiner that looks for a tracing span in the context it is handed:
    it refuses a call made under a span and accepts any other. *)
Definition spanWary : PeerJoiner clock :=
  mkPeerJoiner (λ ctx _ _ w,
                  (match ctxSpan ctx with
                   | Some _ => refused
                   | None => accepted
                   end, w)).

(** The readers and the port map of [service_test.go]. *)
Definition singleNodeReader : cluster.mockClusterStateReader :=
  cluster.mkMock {[ "node1" := "172.18.0.4" ]} "node1".

Definition multiNodeReader : cluster.mockClusterStateReader :=
  cluster.mkMock
    (<["node1" := "172.18.0.4"]>
       (<["node2" := "172.18.0.5"]> {[ "node3" := "172.18.0.6" ]}))
    "node1".

Definition unresolvableReader : cluster.mockClusterStateReader :=
  cluster.mkMock
    (<["node1" := "172.18.0.4"]>
       (<["node2" := ""]> {[ "node3" := "172.18.0.6" ]}))
    "node1".

Definition singleNodePorts : gmap string Z := {[ "node1" := 8300%Z ]}.

Definition threeNodePorts : gmap string Z :=
  <["node1" := 8300%Z]> (<["node2" := 8300%Z]> {[ "node3" := 8300%Z ]}).

End scenario.

(** ** Readings of the events of a call *)

Module run.
Import bootstrap.

(** The entries of [remoteNodes] the joiner [self] may dial: those under
    another id, in iteration order. *)
Definition candidates (self : string) (entries : list (string * string))
  : list (string * string) :=
  filter (λ entry, entry.1 ≠ self) entries.

(** The candidate attempts of a run in the order they were made: the id of
    the entry and the address dialled. *)
Definition attempted (t : list Event) : list (string * string) :=
  omap (λ ev, match ev with
              | EvJoin (Candidate name) addr _ _ _ => Some (name, addr)
              | _ => None
              end) t.

(** The texts a run appends to [errors], in order: one for each failed
    [Join] that ended a candidate's turn. *)
Definition recordsOf (t : list Event) : list string :=
  omap (λ ev, match ev with
              | EvJoin site addr _ resp (Some e) =>
                  if endsTurn site e resp then Some (recordOf site addr e)
                  else None
              | _ => None
              end) t.

Definition isJoin (ev : Event) : bool :=
  match ev with
  | EvJoin _ _ _ _ _ => true
  | EvSelect _ _ => false
  end.

(** The number of [Join] RPCs of a run. *)
Definition joins (t : list Event) : nat := length (List.filter isJoin t).

(** The time a run has asked its timers for, in milliseconds. *)
Definition waited (t : list Event) : Z :=
  foldr (λ ev ms, match ev with
                  | EvSelect d _ => (d + ms)%Z
                  | EvJoin _ _ _ _ _ => ms
                  end) 0%Z t.

(** What may stand before a candidate attempt: nothing, or a wait whose
    timer fired. *)
Definition startsTurn (prev : option Event) : bool :=
  match prev with
  | None => true
  | Some (EvSelect _ None) => true
  | _ => false
  end.

(** Whether the event [ev] may come directly after [prev] ([None]: [ev] is
    the first event of the call), by the control flow of the loop body: a
    candidate attempt starts a turn; a follow-up comes after a redirecting
    failure of a candidate attempt and goes to the leader that was named; a
    wait lasts 50ms and comes after a failed [Join] that ended a turn. *)
Definition okAfter (prev : option Event) (ev : Event) : bool :=
  match ev with
  | EvJoin (Candidate _) _ _ _ _ => startsTurn prev
  | EvJoin LeaderFollow addr _ _ _ =>
      match prev with
      | Some (EvJoin (Candidate _) _ _ resp (Some e)) =>
          redirects e resp && String.eqb addr (GetLeader resp)
      | _ => false
      end
  | EvSelect ms _ =>
      Z.eqb ms 50
      && match prev with
         | Some (EvJoin site _ _ resp (Some e)) => endsTurn site e resp
         | _ => false
         end
  end.

(** Every event of [t] may come after its predecessor, [prev] being what
    came before [t]. *)
Fixpoint follows (prev : option Event) (t : list Event) : bool :=
  match t with
  | [] => true
  | ev :: rest => okAfter prev ev && follows (Some ev) rest
  end.

(** The last event of [t], or [prev] when [t] has none. *)
Definition lastOr (prev : option Event) (t : list Event) : option Event :=
  match last t with
  | Some ev => Some ev
  | None => prev
  end.

(** The text [record] is what the turn of the candidate [entry] left behind
    in a run with the events [t]: the failure of the candidate's own
    [Join], under its id and address, when that failure did not redirect;
    otherwise the failure of the follow-up [Join] sent directly after it to
    the leader its response named, under the tag [leader]. *)
Definition recordedFor (t : list Event) (entry : string * string)
    (record : string) : Prop :=
  ∃ t1 rq resp e rest,
    t = t1 ++ EvJoin (Candidate entry.1) entry.2 rq resp (Some e) :: rest
    ∧ if redirects e resp
      then ∃ resp2 e2 t2,
             rest = EvJoin LeaderFollow (GetLeader resp) rq resp2 (Some e2)
                    :: t2
             ∧ record = "leader(" +:+ GetLeader resp +:+ "): " +:+ Error e2
      else record = entry.1 +:+ "(" +:+ entry.2 +:+ "): " +:+ Error e.

(** An event is what the collaborators answered: a [Join] carries the
    result the peer joiner gave for that destination and request in some
    state of the world, a wait ended the way the context said. *)
Definition answeredBy {W : Type} (pj : PeerJoiner W) (ctx : Ctx W)
    (ev : Event) : Prop :=
  match ev with
  | EvJoin _ addr req resp er => ∃ w, (Join pj ctx addr req w).1 = (resp, er)
  | EvSelect ms d => ∃ w, (ctxWait ctx ms w).1 = d
  end.

End run.

(** * Properties *)

(** ** Strings *)

Section Strings.
Import GoStrings GoFmt.

Lemma append_empty_l (a : string) : "" +:+ a = a.
Proof. reflexivity. Qed.

Lemma append_cons (x : Ascii.ascii) (a b : string) :
  String x a +:+ b = String x (a +:+ b).
Proof. reflexivity. Qed.

Lemma append_assoc (a b c : string) : (a +:+ b) +:+ c = a +:+ b +:+ c.
Proof.
  induction a as [|x a IH]; [done |]. by rewrite !append_cons, IH.
Qed.

Lemma append_empty_r (a : string) : a +:+ "" = a.
Proof. induction a as [|x a IH]; [done |]. by rewrite append_cons, IH. Qed.

Lemma HasPrefix_append (p r : string) : HasPrefix (p +:+ r) p = true.
Proof.
  induction p as [|c p IH]; [done |].
  rewrite append_cons. simpl. by rewrite Ascii.eqb_refl.
Qed.

Lemma HasPrefix_inv (s p : string) :
  HasPrefix s p = true → ∃ r, s = p +:+ r.
Proof.
  revert s. induction p as [|c p IH]; intros s H.
  - by exists s.
  - destruct s as [|d s]; simpl in H; [done |].
    destruct (Ascii.eqb_spec c d) as [->|]; [| done].
    destruct (IH s H) as [r ->]. exists r. by rewrite append_cons.
Qed.

Lemma Contains_Substring (s m : string) :
  Contains s m = true ↔ Substring m s.
Proof.
  split.
  - induction s as [|c s IH]; simpl.
    + destruct (HasPrefix "" m) eqn:E; [| done]. intros _.
      destruct (HasPrefix_inv _ _ E) as [r Hr]. by exists "", r.
    + destruct (HasPrefix (String c s) m) eqn:E.
      * intros _. destruct (HasPrefix_inv _ _ E) as [r Hr]. by exists "", r.
      * intros H. destruct (IH H) as (a & b & ->). by exists (String c a), b.
  - intros (a & b & ->). induction a as [|c a IH].
    + rewrite append_empty_l.
      destruct (m +:+ b) eqn:E; simpl; rewrite <- E, HasPrefix_append; done.
    + rewrite append_cons. simpl. by destruct (HasPrefix _ m).
Qed.

Lemma Substring_refl (s : string) : Substring s s.
Proof. exists "", "". by rewrite append_empty_l, append_empty_r. Qed.

Lemma Substring_trans (a b c : string) :
  Substring a b → Substring b c → Substring a c.
Proof.
  intros (p & q & ->) (p' & q' & ->).
  exists (p' +:+ p), (q +:+ q'). by rewrite !append_assoc.
Qed.

Lemma Substring_app_l (m a b : string) : Substring m a → Substring m (a +:+ b).
Proof.
  intros (p & q & ->). exists p, (q +:+ b). by rewrite !append_assoc.
Qed.

Lemma Substring_app_r (m a b : string) : Substring m b → Substring m (a +:+ b).
Proof.
  intros (p & q & ->). exists (a +:+ p), q. by rewrite !append_assoc.
Qed.

Lemma Substring_Join (sep x : string) (l : list string) :
  x ∈ l → Substring x (Join l sep).
Proof.
  unfold Join. induction l as [|y l IH]; [by intros ?%elem_of_nil |].
  intros [->|Hin]%elem_of_cons.
  - destruct l; simpl; [apply Substring_refl |].
    apply Substring_app_l, Substring_refl.
  - destruct l as [|z l]; [by apply elem_of_nil in Hin |].
    change (Substring x (y +:+ sep +:+ String.concat sep (z :: l))).
    by apply Substring_app_r, Substring_app_r, IH.
Qed.

Lemma elem_of_insertByKey (e x : string * string) (l : list (string * string)) :
  x ∈ insertByKey e l ↔ x = e ∨ x ∈ l.
Proof.
  induction l as [|y l IH]; simpl.
  - rewrite list_elem_of_singleton, elem_of_nil. tauto.
  - destruct (String.leb e.1 y.1); rewrite !elem_of_cons; [done |].
    rewrite IH. tauto.
Qed.

Lemma elem_of_sortByKey (x : string * string) (l : list (string * string)) :
  x ∈ sortByKey l ↔ x ∈ l.
Proof.
  unfold sortByKey. induction l as [|y l IH]; simpl; [done |].
  rewrite elem_of_insertByKey, elem_of_cons, IH. done.
Qed.

Lemma Substring_fmtMap (k v : string) (m : list (string * string)) :
  (k, v) ∈ m → Substring k (fmtMap m) ∧ Substring v (fmtMap m).
Proof.
  intros Hin. apply elem_of_sortByKey in Hin.
  assert (Substring (fmtEntry (k, v)) (fmtMap m)) as He.
  { unfold fmtMap. apply Substring_app_r, Substring_app_l, Substring_Join.
    by apply (list_elem_of_fmap_2 fmtEntry). }
  split; (eapply Substring_trans; [| exact He]); unfold fmtEntry; simpl.
  - apply Substring_app_l, Substring_refl.
  - apply Substring_app_r, Substring_app_r, Substring_refl.
Qed.

End Strings.

(** ** The loop, run and observed *)

Section Loop.
Import bootstrap.
Context {W : Type}.
Implicit Types (j : Joiner W) (ctx : Ctx W) (req : JoinPeerRequest).
Implicit Types (w : W) (errors : list string) (t : list Event) (f : Flow).

Lemma body_Turn j ctx req errors name addr w f t w' :
  body j ctx req errors (name, addr) w = (f, t, w') →
  Turn (localNodeID j) req errors name addr f t.
Proof.
  unfold body, attempt, backoff, callJoin, selectDone.
  unfold mbind, mret, Act_bind, Act_ret.
  destruct (String.eqb_spec name (localNodeID j)) as [Heq|Hne].
  { intros [= <- <- <-]. by constructor. }
  destruct (Join _ ctx addr req w) as [[resp [e|]] w1]; simpl.
  2: { intros [= <- <- <-]. by constructor. }
  destruct (redirects e resp) eqn:Hred.
  - destruct (Join _ ctx (GetLeader resp) req w1) as [[resp2 [e2|]] w2]; simpl.
    + destruct (ctxWait ctx 50 w2) as [done w3].
      destruct done as [c|]; intros [= <- <- <-].
      * by apply (TurnLeaderFailed _ _ _ _ _ resp e resp2 e2 (Some c)).
      * by apply (TurnLeaderFailed _ _ _ _ _ resp e resp2 e2 None).
    + intros [= <- <- <-]. by constructor.
  - simpl. destruct (ctxWait ctx 50 w1) as [done w3].
    destruct done as [c|]; intros [= <- <- <-].
    + by apply (TurnFailed _ _ _ _ _ resp e (Some c)).
    + by apply (TurnFailed _ _ _ _ _ resp e None).
Qed.

Lemma rangeLoop_cons j ctx req entry rest errors w :
  rangeLoop j ctx req (entry :: rest) errors w =
    let '(f, t, w1) := body j ctx req errors entry w in
    match f with
    | Return leader e => (Return leader e, t, w1)
    | Next errors1 =>
        let '(f', t', w2) := rangeLoop j ctx req rest errors1 w1 in
        (f', t ++ t', w2)
    end.
Proof.
  cbn [rangeLoop]. unfold mbind, Act_bind.
  destruct (body j ctx req errors entry w) as [[[leader e|errors1] t] w1].
  - unfold mret, Act_ret. by rewrite app_nil_r.
  - done.
Qed.

Lemma rangeLoop_Loop j ctx req entries errors w f t w' :
  rangeLoop j ctx req entries errors w = (f, t, w') →
  Loop (localNodeID j) req entries errors f t.
Proof.
  revert errors w f t w'.
  induction entries as [|[name addr] rest IH]; intros errors w f t w'.
  - intros [= <- <- <-]. constructor.
  - rewrite rangeLoop_cons.
    destruct (body j ctx req errors (name, addr) w) as [[f1 t1] w1] eqn:Hb.
    apply body_Turn in Hb. destruct f1 as [leader e|errors1].
    + intros [= <- <- <-]. by constructor.
    + destruct (rangeLoop j ctx req rest errors1 w1) as [[f2 t2] w2] eqn:Hr.
      intros [= <- <- <-]. econstructor; [exact Hb | by eapply IH].
Qed.

Lemma rangeLoop_app j ctx req pre post errors0 w errors t w1 :
  rangeLoop j ctx req pre errors0 w = (Next errors, t, w1) →
  rangeLoop j ctx req (pre ++ post) errors0 w =
    let '(f, t', w') := rangeLoop j ctx req post errors w1 in (f, t ++ t', w').
Proof.
  revert errors0 w t.
  induction pre as [|entry pre IH]; intros errors0 w t.
  - intros [= <- <- <-]. rewrite app_nil_l.
    by destruct (rangeLoop j ctx req post errors0 w) as [[??]?].
  - rewrite <- app_comm_cons, !rangeLoop_cons.
    destruct (body j ctx req errors0 entry w) as [[f1 t1] w2].
    destruct f1 as [leader e|errors1]; [done |].
    destruct (rangeLoop j ctx req pre errors1 w2) as [[f2 t2] w3] eqn:Hr.
    intros [= -> <- ->]. rewrite (IH _ _ _ Hr).
    destruct (rangeLoop j ctx req post errors w1) as [[f3 t3] w4].
    by rewrite app_assoc.
Qed.

Lemma outcome_Do j sentryEnabled ctx remoteNodes w :
  outcome (Do j sentryEnabled ctx remoteNodes w) =
    loopThenReturn j (joinCtx sentryEnabled ctx remoteNodes) (joinRequest j)
                   remoteNodes remoteNodes [] w.
Proof.
  unfold outcome, Do.
  by destruct (loopThenReturn _ _ _ _ _ _ _) as [[[??]?]?].
Qed.

(** [Do] is its loop, observed, followed by the choice of the result. *)
Lemma Do_Loop j sentryEnabled ctx remoteNodes w :
  ∃ f, Loop (localNodeID j) (joinRequest j) remoteNodes [] f
            (events (Do j sentryEnabled ctx remoteNodes w))
       ∧ (leaderAddr (Do j sentryEnabled ctx remoteNodes w),
          err (Do j sentryEnabled ctx remoteNodes w)) =
         match f with
         | Return leader e => (leader, e)
         | Next errors => ("", Some (exhausted remoteNodes errors))
         end.
Proof.
  unfold Do, loopThenReturn, mbind, Act_bind.
  destruct (rangeLoop _ _ _ remoteNodes [] w) as [[f t] w1] eqn:Hr.
  apply rangeLoop_Loop in Hr. exists f.
  destruct f; simpl; rewrite app_nil_r; done.
Qed.

End Loop.

(** ** Shape of the event sequences *)

Section Traces.
Import bootstrap.
Implicit Types (req : JoinPeerRequest) (errors : list string).
Implicit Types (t : list Event) (f : Flow).

Lemma Turn_returnsAtTerminal self req errors name addr f t :
  Turn self req errors name addr f t → returnsAtTerminal f t.
Proof.
  destruct 1 as [| |resp e resp2|resp e resp2 e2 done|resp e done]; simpl.
  - constructor.
  - by exists [], (EvJoin (Candidate name) addr req resp None).
  - exists [EvJoin (Candidate name) addr req resp (Some e)],
           (EvJoin LeaderFollow (GetLeader resp) req resp2 None).
    repeat split. by repeat constructor.
  - destruct done as [ce|]; simpl.
    + exists [EvJoin (Candidate name) addr req resp (Some e);
              EvJoin LeaderFollow (GetLeader resp) req resp2 (Some e2)],
             (EvSelect 50 (Some ce)).
      repeat split. by repeat constructor.
    + by repeat constructor.
  - destruct done as [ce|]; simpl.
    + exists [EvJoin (Candidate name) addr req resp (Some e)],
             (EvSelect 50 (Some ce)).
      repeat split. by repeat constructor.
    + by repeat constructor.
Qed.

Lemma Loop_returnsAtTerminal self req entries errors f t :
  Loop self req entries errors f t → returnsAtTerminal f t.
Proof.
  induction 1 as [errors|name addr rest errors leader e t Ht
                 |name addr rest errors errors' t f t' Ht Hl IH].
  - constructor.
  - by eapply Turn_returnsAtTerminal.
  - apply Turn_returnsAtTerminal in Ht. simpl in Ht.
    destruct f as [leader e|errors2]; simpl in *.
    + destruct IH as (t0 & ev & -> & Hall & Hterm).
      exists (t ++ t0), ev. rewrite app_assoc. repeat split; [| done].
      by apply Forall_app.
    + by apply Forall_app.
Qed.



End Traces.

(** ** One candidate's turn *)

Section Turn.
Import bootstrap.
Context {W : Type}.
Implicit Types (j : Joiner W) (ctx : Ctx W) (req : JoinPeerRequest).
Implicit Types (w : W) (errors : list string) (t : list Event) (f : Flow).

(** What the loop body does for an entry of another node, by the results of
    the calls it makes. *)
Lemma body_other j ctx req errors name addr w :
  name ≠ localNodeID j →
  body j ctx req errors (name, addr) w =
    let '(resp, er, w1) := Join (peerJoiner j) ctx addr req w in
    let first := EvJoin (Candidate name) addr req resp er in
    match er with
    | None => (Return addr None, [first], w1)
    | Some e =>
        if redirects e resp then
          let '(resp2, er2, w2) :=
            Join (peerJoiner j) ctx (GetLeader resp) req w1 in
          let second := EvJoin LeaderFollow (GetLeader resp) req resp2 er2 in
          match er2 with
          | None => (Return (GetLeader resp) None, [first; second], w2)
          | Some e2 =>
              let '(done, w3) := ctxWait ctx 50 w2 in
              (afterSelect done
                 (errors ++ ["leader(" +:+ GetLeader resp +:+ "): "
                             +:+ Error e2]),
               [first; second; EvSelect 50 done], w3)
          end
        else
          let '(done, w3) := ctxWait ctx 50 w1 in
          (afterSelect done
             (errors ++ [name +:+ "(" +:+ addr +:+ "): " +:+ Error e]),
           [first; EvSelect 50 done], w3)
    end.
Proof.
  intros Hne. unfold body, attempt, backoff, callJoin, selectDone.
  unfold mbind, mret, Act_bind, Act_ret.
  destruct (String.eqb_spec name (localNodeID j)) as [|_]; [done |].
  destruct (Join _ ctx addr req w) as [[resp [e|]] w1]; simpl; [| done].
  destruct (redirects e resp).
  - destruct (Join _ ctx (GetLeader resp) req w1) as [[resp2 [e2|]] w2];
      simpl; [| done].
    destruct (ctxWait ctx 50 w2) as [[c|] w3]; done.
  - simpl. destruct (ctxWait ctx 50 w1) as [[c|] w3]; done.
Qed.

Lemma body_self j ctx req errors name addr w :
  name = localNodeID j →
  body j ctx req errors (name, addr) w = (Next errors, [], w).
Proof.
  intros ->. unfold body. by rewrite String.eqb_refl.
Qed.

Lemma redirects_true e resp :
  redirects e resp = true ↔
  status.Code (status.Convert e) = codes.ResourceExhausted
  ∧ GetLeader resp ≠ "".
Proof.
  unfold redirects. rewrite andb_true_iff, bool_decide_eq_true, negb_true_iff.
  by rewrite String.eqb_neq.
Qed.

Lemma redirects_nil e : redirects e None = false.
Proof. unfold redirects. simpl. apply andb_false_r. Qed.

(** The run of [Do] once the loop has reached an entry: what came before,
    then the loop from that entry on. *)
Lemma Do_reaches j sentryEnabled ctx pre rest w errors t w1 :
  rangeLoop j (joinCtx sentryEnabled ctx (pre ++ rest)) (joinRequest j)
            pre [] w
    = (Next errors, t, w1) →
  outcome (Do j sentryEnabled ctx (pre ++ rest) w) =
    let '(leader, er, t', w') :=
      loopThenReturn j (joinCtx sentryEnabled ctx (pre ++ rest))
                     (joinRequest j) (pre ++ rest) rest errors w1 in
    (leader, er, t ++ t', w').
Proof.
  intros Hpre. rewrite outcome_Do. unfold loopThenReturn, mbind, Act_bind.
  rewrite (rangeLoop_app _ _ _ _ _ _ _ _ _ _ Hpre).
  destruct (rangeLoop _ _ _ rest errors w1) as [[[leader e|errors1] t1] w2];
    unfold mret, Act_ret; by rewrite app_assoc.
Qed.

Lemma loopThenReturn_cons j ctx req nodes entry rest errors w :
  loopThenReturn j ctx req nodes (entry :: rest) errors w =
    let '(f, t, w1) := body j ctx req errors entry w in
    match f with
    | Return leader e => (leader, e, t, w1)
    | Next errors1 =>
        let '(leader, e, t', w2) :=
          loopThenReturn j ctx req nodes rest errors1 w1 in
        (leader, e, t ++ t', w2)
    end.
Proof.
  unfold loopThenReturn, mbind, Act_bind. rewrite rangeLoop_cons.
  destruct (body j ctx req errors entry w) as [[[leader e|errors1] t] w1].
  - unfold mret, Act_ret. by rewrite app_nil_r.
  - destruct (rangeLoop j ctx req rest errors1 w1)
      as [[[leader e|errors2] t'] w2]; unfold mret, Act_ret;
      by rewrite app_assoc.
Qed.

End Turn.

(** ** Claims about the turn of one candidate

    The loop has run over the entries [pre] without returning and now is at
    the entry [(name, addr)] of another node; [post] are the entries still
    to come. *)

Section AtCandidate.
Import bootstrap.
Context {W : Type}.
Variables (j : Joiner W) (sentryEnabled : bool) (ctx : Ctx W).
Variables (pre post : list (string * string)) (name addr : string).
Variables (w w1 : W) (errors : list string) (t : list Event).

Local Abbreviation remoteNodes := (pre ++ (name, addr) :: post).
Local Abbreviation ctx' := (joinCtx sentryEnabled ctx remoteNodes).
Local Abbreviation req := (joinRequest j).

Hypothesis reached : rangeLoop j ctx' req pre [] w = (Next errors, t, w1).
Hypothesis other : name ≠ localNodeID j.

(** C1 (success short-circuit).  When the [Join] sent to a candidate returns
    no error, [Do] returns that candidate's address with a nil error, and
    the events of the call end with that [Join]: nothing is sent to any of
    the later entries [post]. *)
Theorem Do_success_short_circuit resp w2 :
  Join (peerJoiner j) ctx' addr req w1 = (resp, None, w2) →
  outcome (Do j sentryEnabled ctx remoteNodes w) =
    (addr, None, t ++ [EvJoin (Candidate name) addr req resp None], w2).
Proof.
  intros Hjoin. rewrite (Do_reaches _ _ _ _ _ _ _ _ _ reached).
  rewrite loopThenReturn_cons, body_other by done.
  by rewrite Hjoin.
Qed.

(** C2 (leader follow).  When the [Join] sent to a candidate fails with a
    resource-exhausted status and the response names a leader, the next
    event is a [Join] sent to that leader.  If it succeeds, [Do] returns the
    leader's address with a nil error.  If it fails, the failure is recorded
    under the tag [leader(...)] and the call goes through the back-off
    [select] like after any failed attempt: when the timer fires the loop
    carries on with the entries [post], and only a context that is done
    ends the call there. *)
Theorem Do_leader_follow resp e w2 resp2 er2 w3 :
  Join (peerJoiner j) ctx' addr req w1 = (resp, Some e, w2) →
  status.Code (status.Convert e) = codes.ResourceExhausted →
  GetLeader resp ≠ "" →
  Join (peerJoiner j) ctx' (GetLeader resp) req w2 = (resp2, er2, w3) →
  outcome (Do j sentryEnabled ctx remoteNodes w) =
    let first := EvJoin (Candidate name) addr req resp (Some e) in
    let second := EvJoin LeaderFollow (GetLeader resp) req resp2 er2 in
    match er2 with
    | None => (GetLeader resp, None, t ++ [first; second], w3)
    | Some e2 =>
        let errors' :=
          errors ++ ["leader(" +:+ GetLeader resp +:+ "): " +:+ Error e2] in
        match ctxWait ctx' 50 w3 with
        | (Some ce, w4) =>
            ("", Some (ctxErr ce),
             t ++ [first; second; EvSelect 50 (Some ce)], w4)
        | (None, w4) =>
            let '(leader, er, t', w5) :=
              loopThenReturn j ctx' req remoteNodes post errors' w4 in
            (leader, er, t ++ [first; second; EvSelect 50 None] ++ t', w5)
        end
    end.
Proof.
  intros Hjoin Hcode Hleader Hfollow.
  rewrite (Do_reaches _ _ _ _ _ _ _ _ _ reached).
  rewrite loopThenReturn_cons, body_other by done.
  rewrite Hjoin. cbv zeta.
  rewrite (proj2 (redirects_true e resp)) by done.
  rewrite Hfollow. destruct er2 as [e2|]; [| done].
  destruct (ctxWait ctx' 50 w3) as [[ce|] w4]; simpl; [done |].
  by destruct (loopThenReturn _ _ _ _ post _ w4) as [[[??]?]?].
Qed.

(** C10 (absent response).  When the [Join] sent to a candidate returns an
    error and no response at all, whatever the status code, the leader is
    read as empty: no follow-up [Join] is sent, the failure is recorded
    under the candidate's name and address, and the call goes on to the
    back-off [select] and from there to the entries [post]. *)
Theorem Do_nil_response e w2 :
  Join (peerJoiner j) ctx' addr req w1 = (None, Some e, w2) →
  GetLeader None = ""
  ∧ outcome (Do j sentryEnabled ctx remoteNodes w) =
      let first := EvJoin (Candidate name) addr req None (Some e) in
      let errors' :=
        errors ++ [name +:+ "(" +:+ addr +:+ "): " +:+ Error e] in
      match ctxWait ctx' 50 w2 with
      | (Some ce, w3) =>
          ("", Some (ctxErr ce), t ++ [first; EvSelect 50 (Some ce)], w3)
      | (None, w3) =>
          let '(leader, er, t', w4) :=
            loopThenReturn j ctx' req remoteNodes post errors' w3 in
          (leader, er, t ++ [first; EvSelect 50 None] ++ t', w4)
      end.
Proof.
  intros Hjoin. split; [done |].
  rewrite (Do_reaches _ _ _ _ _ _ _ _ _ reached).
  rewrite loopThenReturn_cons, body_other by done.
  rewrite Hjoin. cbv zeta. rewrite redirects_nil.
  destruct (ctxWait ctx' 50 w2) as [[ce|] w3]; simpl; [done |].
  by destruct (loopThenReturn _ _ _ _ post _ w3) as [[[??]?]?].
Qed.

End AtCandidate.

(** ** What the events of a run say *)

Section Events.
Import bootstrap.
Implicit Types (req : JoinPeerRequest) (errors : list string).
Implicit Types (t : list Event) (f : Flow).

(** Where the [Join]s of a turn go: the candidate attempt to the entry's
    address, a follow-up to the leader the candidate's response named. *)
Lemma Turn_destinations self req errors name addr f t site a rq resp er :
  Turn self req errors name addr f t →
  EvJoin site a rq resp er ∈ t →
  rq = req ∧
  match site with
  | Candidate n => n = name ∧ a = addr ∧ name ≠ self
  | LeaderFollow =>
      ∃ resp0 e0, EvJoin (Candidate name) addr req resp0 (Some e0) ∈ t
                  ∧ redirects e0 resp0 = true ∧ a = GetLeader resp0
  end.
Proof.
  destruct 1 as [|resp1|resp1 e1 resp2 ? Hred|resp1 e1 resp2 e2 dn ? Hred
                |resp1 e1 dn ? Hred];
    intros Hin;
    repeat (apply elem_of_cons in Hin as [Hin|Hin]);
    try (by apply elem_of_nil in Hin); try discriminate Hin;
    injection Hin as -> -> -> -> ->; (split; [done |]); try done.
  - exists resp1, e1. split; [by left | done].
  - exists resp1, e1. split; [by left | done].
Qed.

Lemma Loop_destinations self req entries errors f t site a rq resp er :
  Loop self req entries errors f t →
  EvJoin site a rq resp er ∈ t →
  rq = req ∧
  match site with
  | Candidate n => n ≠ self ∧ (n, a) ∈ entries
  | LeaderFollow =>
      ∃ n a0 resp0 e0, EvJoin (Candidate n) a0 req resp0 (Some e0) ∈ t
                       ∧ redirects e0 resp0 = true ∧ a = GetLeader resp0
  end.
Proof.
  induction 1 as [errors|name addr rest errors leader e t Ht
                 |name addr rest errors errors' t f t' Ht Hl IH]; intros Hin.
  - by apply elem_of_nil in Hin.
  - destruct (Turn_destinations _ _ _ _ _ _ _ _ _ _ _ _ Ht Hin) as [-> Hs].
    split; [done |]. destruct site as [n|].
    + destruct Hs as (-> & -> & ?). split; [done | by left].
    + destruct Hs as (resp0 & e0 & ? & ? & ?). by exists name, addr, resp0, e0.
  - apply elem_of_app in Hin as [Hin|Hin].
    + destruct (Turn_destinations _ _ _ _ _ _ _ _ _ _ _ _ Ht Hin) as [-> Hs].
      split; [done |]. destruct site as [n|].
      * destruct Hs as (-> & -> & ?). split; [done | by left].
      * destruct Hs as (resp0 & e0 & ? & ? & ?).
        exists name, addr, resp0, e0. split; [| done].
        apply elem_of_app. by left.
    + destruct (IH Hin) as [-> Hs]. split; [done |]. destruct site as [n|].
      * destruct Hs as [? ?]. split; [done | by right].
      * destruct Hs as (n & a0 & resp0 & e0 & ? & ? & ?).
        exists n, a0, resp0, e0. split; [| done].
        apply elem_of_app. by right.
Qed.

(** A turn that lets the loop go on has recorded its last failed [Join]. *)
Lemma Turn_recorded self req errors name addr f t :
  Turn self req errors name addr f t →
  ∀ errors1, f = Next errors1 →
    (∀ s, s ∈ errors → s ∈ errors1)
    ∧ ∀ site a rq resp e,
        EvJoin site a rq resp (Some e) ∈ t → endsTurn site e resp = true →
        recordOf site a e ∈ errors1.
Proof.
  destruct 1 as [|resp1|resp1 e1 resp2 ? Hred|resp1 e1 resp2 e2 dn ? Hred
                |resp1 e1 dn ? Hred]; intros errors1 Hf; try discriminate Hf.
  - injection Hf as <-. split; [done |].
    intros ????? Hin. by apply elem_of_nil in Hin.
  - destruct dn; [discriminate Hf |]. injection Hf as <-.
    split; [intros s Hs; apply elem_of_app; by left |].
    intros site a rq resp e Hin Hends.
    repeat (apply elem_of_cons in Hin as [Hin|Hin]);
      try (by apply elem_of_nil in Hin); try discriminate Hin;
      injection Hin as -> -> -> -> ->; simpl in *.
    + by rewrite Hred in Hends.
    + apply elem_of_app. right. by apply list_elem_of_singleton.
  - destruct dn; [discriminate Hf |]. injection Hf as <-.
    split; [intros s Hs; apply elem_of_app; by left |].
    intros site a rq resp e Hin Hends.
    repeat (apply elem_of_cons in Hin as [Hin|Hin]);
      try (by apply elem_of_nil in Hin); try discriminate Hin;
      injection Hin as -> -> -> -> ->; simpl in *.
    apply elem_of_app. right. by apply list_elem_of_singleton.
Qed.

Lemma Loop_recorded self req entries errors f t :
  Loop self req entries errors f t →
  ∀ errors', f = Next errors' →
    (∀ s, s ∈ errors → s ∈ errors')
    ∧ ∀ site a rq resp e,
        EvJoin site a rq resp (Some e) ∈ t → endsTurn site e resp = true →
        recordOf site a e ∈ errors'.
Proof.
  induction 1 as [errors|name addr rest errors leader e t Ht
                 |name addr rest errors errors1 t f t' Ht Hl IH];
    intros errors' Hf.
  - injection Hf as <-. split; [done |].
    intros ????? Hin. by apply elem_of_nil in Hin.
  - done.
  - destruct (Turn_recorded _ _ _ _ _ _ _ Ht _ eq_refl) as [Hsub Hrec].
    destruct (IH _ Hf) as [Hsub' Hrec']. split; [by auto |].
    intros site a rq resp e [Hin|Hin]%elem_of_app Hends; by eauto.
Qed.





Lemma Substring_exhausted_node nodes errors k v :
  (k, v) ∈ nodes →
  GoStrings.Substring k (Error (exhausted nodes errors))
  ∧ GoStrings.Substring v (Error (exhausted nodes errors)).
Proof.
  intros [Hk Hv]%Substring_fmtMap. unfold exhausted.
  destruct (0 <? length errors)%nat; simpl.
  - split; by apply Substring_app_r, Substring_app_l.
  - split; by apply Substring_app_r.
Qed.

Lemma Substring_exhausted_record nodes errors s :
  s ∈ errors → GoStrings.Substring s (Error (exhausted nodes errors)).
Proof.
  intros Hin. unfold exhausted.
  assert ((0 <? length errors)%nat = true) as ->.
  { destruct errors; [by apply elem_of_nil in Hin | done]. }
  cbn [Error].
  by apply Substring_app_r, Substring_app_r, Substring_app_r, Substring_Join.
Qed.

Lemma Substring_recordOf site a e :
  GoStrings.Substring a (recordOf site a e).
Proof.
  destruct site as [n|]; simpl; apply Substring_app_r;
    [apply Substring_app_r |]; apply Substring_app_l, Substring_refl.
Qed.

End Events.

(** ** Claims about whole calls *)

Section Calls.
Import bootstrap.
Context {W : Type}.
Implicit Types (j : Joiner W) (ctx : Ctx W) (w : W).
Implicit Types (remoteNodes : list (string * string)).

(** C3, as amended (self skip).  The entries under the local node id are
    skipped: every candidate [Join] of a call belongs to an entry of
    [remoteNodes] under another id and goes to that entry's address.  The
    only other [Join]s are the follow-ups, and such a [Join] goes to the
    leader address named by the response to a candidate attempt of the same
    call that failed with a resource-exhausted status; that address is not
    compared with anything.  Every [Join] carries the request built from the
    joiner's own id, address and voter flag. *)
Theorem Do_join_destinations j sentryEnabled ctx remoteNodes w
    site a rq resp er :
  EvJoin site a rq resp er ∈ events (Do j sentryEnabled ctx remoteNodes w) →
  rq = joinRequest j ∧
  match site with
  | Candidate name => name ≠ localNodeID j ∧ (name, a) ∈ remoteNodes
  | LeaderFollow =>
      ∃ name a0 resp0 e0,
        EvJoin (Candidate name) a0 (joinRequest j) resp0 (Some e0)
          ∈ events (Do j sentryEnabled ctx remoteNodes w)
        ∧ redirects e0 resp0 = true ∧ a = GetLeader resp0
  end.
Proof.
  destruct (Do_Loop j sentryEnabled ctx remoteNodes w) as (f & Hloop & _).
  intros Hin. exact (Loop_destinations _ _ _ _ _ _ _ _ _ _ _ Hloop Hin).
Qed.

(** C4, as amended (exhaustion).  When every [Join] of a call returned an
    error and every back-off wait ran to the end of its timer, [Do] returns
    the empty address and the error built at the end of the loop.  Its text
    contains the id and the address of every entry of [remoteNodes], the
    destination of every [Join] that was sent, and, for each [Join] that
    ended a candidate's turn, the text recorded for it: the tag, the
    destination and the text of the error. *)
Theorem Do_exhausted j sentryEnabled ctx remoteNodes w :
  Forall (λ ev, terminal ev = None)
         (events (Do j sentryEnabled ctx remoteNodes w)) →
  leaderAddr (Do j sentryEnabled ctx remoteNodes w) = "" ∧
  ∃ errors,
    err (Do j sentryEnabled ctx remoteNodes w)
      = Some (exhausted remoteNodes errors)
    ∧ (∀ name addr, (name, addr) ∈ remoteNodes →
         GoStrings.Contains (Error (exhausted remoteNodes errors)) name = true
         ∧ GoStrings.Contains (Error (exhausted remoteNodes errors)) addr
           = true)
    ∧ (∀ site a rq resp e,
         EvJoin site a rq resp (Some e)
           ∈ events (Do j sentryEnabled ctx remoteNodes w) →
         GoStrings.Contains (Error (exhausted remoteNodes errors)) a = true
         ∧ (endsTurn site e resp = true →
            GoStrings.Contains (Error (exhausted remoteNodes errors))
                               (recordOf site a e) = true)).
Proof.
  destruct (Do_Loop j sentryEnabled ctx remoteNodes w) as (f & Hloop & Hres).
  intros Hall. pose proof (Loop_returnsAtTerminal _ _ _ _ _ _ Hloop) as Hshape.
  destruct f as [leader e|errors]; simpl in Hshape.
  { destruct Hshape as (t0 & ev & Heq & _ & Hterm).
    rewrite Forall_forall in Hall.
    assert (terminal ev = None) as Hnone.
    { apply Hall. rewrite Heq. apply elem_of_app. right.
      by apply list_elem_of_singleton. }
    congruence. }
  injection Hres as Hl He. split; [done |]. exists errors.
  destruct (Loop_recorded _ _ _ _ _ _ Hloop _ eq_refl) as [_ Hrec].
  split; [done |]. split.
  - intros name addr Hin. rewrite !Contains_Substring.
    by apply Substring_exhausted_node.
  - intros site a rq resp e Hin.
    assert (endsTurn site e resp = true →
            GoStrings.Substring (recordOf site a e)
                                (Error (exhausted remoteNodes errors))) as Hr.
    { intros Hends. apply Substring_exhausted_record. by eapply Hrec. }
    rewrite !Contains_Substring. split; [| done].
    destruct (Loop_destinations _ _ _ _ _ _ _ _ _ _ _ Hloop Hin) as [_ Hs].
    destruct site as [name|].
    + destruct Hs as [_ Hs]. by apply (Substring_exhausted_node _ _ name a).
    + eapply Substring_trans; [apply Substring_recordOf | by apply Hr].
Qed.

Lemma rangeLoop_all_self j ctx req entries errors w :
  (∀ name addr, (name, addr) ∈ entries → name = localNodeID j) →
  rangeLoop j ctx req entries errors w = (Next errors, [], w).
Proof.
  induction entries as [|[name addr] rest IH]; intros Hself; [done |].
  rewrite rangeLoop_cons, body_self.
  - rewrite IH; [done |]. intros n a Hin. apply (Hself n a).
    apply elem_of_cons. by right.
  - apply (Hself name addr). apply elem_of_cons. by left.
Qed.

(** C5 (nothing to try).  When every entry of [remoteNodes] is an entry of
    the local node, in particular when there is no entry at all, [Do] sends
    nothing, waits for nothing and returns the empty address with an error
    that is not nil. *)
Theorem Do_no_candidates j sentryEnabled ctx remoteNodes w :
  (∀ name addr, (name, addr) ∈ remoteNodes → name = localNodeID j) →
  outcome (Do j sentryEnabled ctx remoteNodes w) =
    ("",
     Some (errorString ("could not join a cluster from "
                        +:+ GoFmt.fmtMap remoteNodes)),
     [], w).
Proof.
  intros Hself. rewrite outcome_Do. unfold loopThenReturn, mbind, Act_bind.
  by rewrite (rangeLoop_all_self _ _ _ _ _ _ Hself).
Qed.




Lemma body_ctx_ext j ctx1 ctx2 req errors entry w :
  (∀ a w0, Join (peerJoiner j) ctx1 a req w0
           = Join (peerJoiner j) ctx2 a req w0) →
  (∀ ms w0, ctxWait ctx1 ms w0 = ctxWait ctx2 ms w0) →
  body j ctx1 req errors entry w = body j ctx2 req errors entry w.
Proof.
  intros Hjoin Hwait. destruct entry as [name addr].
  destruct (decide (name = localNodeID j)) as [Heq|Hne].
  - by rewrite !body_self.
  - rewrite !body_other by done. rewrite Hjoin.
    destruct (Join _ ctx2 addr req w) as [[resp [e|]] w1]; [| done].
    cbv zeta. destruct (redirects e resp); [| by rewrite Hwait].
    rewrite Hjoin.
    destruct (Join _ ctx2 (GetLeader resp) req w1) as [[resp2 [e2|]] w2];
      [by rewrite Hwait | done].
Qed.

Lemma rangeLoop_ctx_ext j ctx1 ctx2 req entries errors w :
  (∀ a w0, Join (peerJoiner j) ctx1 a req w0
           = Join (peerJoiner j) ctx2 a req w0) →
  (∀ ms w0, ctxWait ctx1 ms w0 = ctxWait ctx2 ms w0) →
  rangeLoop j ctx1 req entries errors w
  = rangeLoop j ctx2 req entries errors w.
Proof.
  intros Hjoin Hwait. revert errors w.
  induction entries as [|entry rest IH]; intros errors w; [done |].
  rewrite !rangeLoop_cons, (body_ctx_ext _ _ _ _ _ _ _ Hjoin Hwait).
  destruct (body j ctx2 req errors entry w) as [[[leader e|errors1] t] w1];
    [done |].
  by rewrite IH.
Qed.

(** C9, as amended (telemetry).  [Do] itself never looks at the span: it
    only hands the span's context on.  So for a peer joiner that answers a
    call made under the context of the span, with the servers attached, as
    it answers the same call made under the caller's context, [Do] returns
    the same address and error, sends the same [Join]s, waits alike and
    leaves the same world behind, whether the tracing span is started or
    not. *)
Theorem Do_telemetry_independent j ctx remoteNodes w :
  (∀ a rq w0,
     Join (peerJoiner j)
          (spanContext ctx (SetData joinSpan "servers" remoteNodes)) a rq w0
     = Join (peerJoiner j) ctx a rq w0) →
  outcome (Do j true ctx remoteNodes w)
  = outcome (Do j false ctx remoteNodes w).
Proof.
  intros Hjoin. rewrite !outcome_Do. unfold loopThenReturn, mbind, Act_bind.
  by rewrite (rangeLoop_ctx_ext j (joinCtx true ctx remoteNodes)
                                (joinCtx false ctx remoteNodes)).
Qed.

End Calls.

(** ** Resolution of the remote nodes *)

Section Resolver.
Import cluster.
Implicit Types (reader : mockClusterStateReader) (portByNode : gmap string Z).

Lemma ResolveRemoteNodes_lookup reader portByNode id :
  ResolveRemoteNodes reader portByNode !! id =
    match addresses reader !! id with
    | Some addr =>
        if decide (addr = "") then None
        else Some (hostPort addr (portOf portByNode id))
    | None => None
    end.
Proof.
  unfold ResolveRemoteNodes, NodeAddress. rewrite map_lookup_imap.
  by destruct (addresses reader !! id) as [addr|].
Qed.

Lemma AllClusterMembers_lookup reader raftPort id :
  AllClusterMembers reader raftPort !! id =
    match addresses reader !! id with
    | Some addr =>
        if decide (addr = "") then None else Some (hostPort addr raftPort)
    | None => None
    end.
Proof.
  unfold AllClusterMembers. rewrite lookup_omap.
  by destruct (addresses reader !! id) as [addr|].
Qed.

Lemma ResolveRemoteNodes_dom reader portByNode :
  dom (ResolveRemoteNodes reader portByNode) = dom (resolvable reader).
Proof.
  apply set_eq. intros id. rewrite !elem_of_dom. unfold is_Some.
  rewrite ResolveRemoteNodes_lookup. unfold resolvable.
  setoid_rewrite map_lookup_filter_Some. simpl.
  destruct (addresses reader !! id) as [addr|].
  - destruct (decide (addr = "")) as [->|Hne]; split.
    + by intros [? ?].
    + by intros (? & [= <-] & ?).
    + intros _. by exists addr.
    + intros _. by eexists.
  - split; [by intros [? ?] | by intros (? & ? & ?)].
Qed.

(** With one port for all nodes, resolution yields what the reader of the
    tests reports as its members. *)
Lemma ResolveRemoteNodes_AllClusterMembers reader portByNode raftPort :
  (∀ id, id ∈ dom (addresses reader) → portByNode !! id = Some raftPort) →
  ResolveRemoteNodes reader portByNode = AllClusterMembers reader raftPort.
Proof.
  intros Hport. apply map_eq. intros id.
  rewrite ResolveRemoteNodes_lookup, AllClusterMembers_lookup.
  destruct (addresses reader !! id) as [addr|] eqn:Hid; [| done].
  unfold portOf. rewrite Hport; [done |]. by apply elem_of_dom.
Qed.

(** C8 (resolution).  The resolved map has an entry for a node exactly when
    the reader knows the node under an address that is not empty, and the
    entry is that address, a colon and the node's port in decimal; a node
    whose address resolves empty has no entry.  So the map has as many
    entries as the reader has resolvable members, and a reader without
    members resolves to the empty map. *)
Theorem ResolveRemoteNodes_exact reader portByNode :
  (∀ id addr port,
     addresses reader !! id = Some addr → addr ≠ "" →
     portByNode !! id = Some port →
     ResolveRemoteNodes reader portByNode !! id
       = Some (addr +:+ ":" +:+ GoStrings.Itoa port))
  ∧ (∀ id,
       ResolveRemoteNodes reader portByNode !! id =
         match addresses reader !! id with
         | Some addr =>
             if decide (addr = "") then None
             else Some (hostPort addr (portOf portByNode id))
         | None => None
         end)
  ∧ (∀ id, NodeAddress reader id = "" →
           ResolveRemoteNodes reader portByNode !! id = None)
  ∧ size (ResolveRemoteNodes reader portByNode) = size (resolvable reader)
  ∧ (addresses reader = ∅ → ResolveRemoteNodes reader portByNode = ∅).
Proof.
  repeat split.
  - intros id addr port Hid Hne Hport. rewrite ResolveRemoteNodes_lookup, Hid.
    destruct (decide (addr = "")); [done |].
    unfold portOf. by rewrite Hport.
  - apply ResolveRemoteNodes_lookup.
  - intros id. rewrite ResolveRemoteNodes_lookup. unfold NodeAddress.
    destruct (addresses reader !! id) as [addr|]; simpl; [| done].
    intros ->. by destruct (decide ("" = "")).
  - by rewrite <- !size_dom, ResolveRemoteNodes_dom.
  - intros Hempty. apply map_eq. intros id.
    by rewrite ResolveRemoteNodes_lookup, Hempty, !lookup_empty.
Qed.

End Resolver.

(** ** The scenarios of the tests and of the specification, run *)

Section Scenarios.
Import bootstrap cluster scenario.

Example TestResolveRemoteNodesSingleNode :
  size (ResolveRemoteNodes singleNodeReader singleNodePorts) = 1
  ∧ ResolveRemoteNodes singleNodeReader singleNodePorts !! "node1"
    = Some "172.18.0.4:8300".
Proof. by vm_compute. Qed.

Example TestResolveRemoteNodesMultiNode :
  size (ResolveRemoteNodes multiNodeReader threeNodePorts) = 3
  ∧ ResolveRemoteNodes multiNodeReader threeNodePorts !! "node1"
    = Some "172.18.0.4:8300"
  ∧ ResolveRemoteNodes multiNodeReader threeNodePorts !! "node2"
    = Some "172.18.0.5:8300"
  ∧ ResolveRemoteNodes multiNodeReader threeNodePorts !! "node3"
    = Some "172.18.0.6:8300".
Proof. by vm_compute. Qed.

Example TestResolveRemoteNodesWithUnresolvableNodes :
  size (ResolveRemoteNodes unresolvableReader threeNodePorts) = 2
  ∧ ResolveRemoteNodes unresolvableReader threeNodePorts !! "node1"
    = Some "172.18.0.4:8300"
  ∧ ResolveRemoteNodes unresolvableReader threeNodePorts !! "node2" = None
  ∧ ResolveRemoteNodes unresolvableReader threeNodePorts !! "node3"
    = Some "172.18.0.6:8300".
Proof. by vm_compute. Qed.

Example AllClusterMembers_unresolvable :
  AllClusterMembers unresolvableReader 8300
  = ResolveRemoteNodes unresolvableReader threeNodePorts.
Proof. by vm_compute. Qed.

(** [peerA] is not the leader and names [peerB]; [peerB] accepts. *)
Example Do_follows_to_peerB :
  outcome (Do (node1 (tablePeer [(addr2, notLeader addr3); (addr3, accepted)]))
              false background [("peerA", addr2); ("peerB", addr3)] 0)
  = (addr3, None,
     [EvJoin (Candidate "peerA") addr2 req1
             (Some (mkJoinPeerResponse addr3))
             (Some (statusError codes.ResourceExhausted "not the leader"));
      EvJoin LeaderFollow addr3 req1 (Some (mkJoinPeerResponse "")) None],
     0).
Proof. by vm_compute. Qed.

(** Two candidates refuse: the error names both. *)
Example Do_two_refusals :
  outcome (Do (node1 (tablePeer [])) false background
              [("peerA", addr2); ("peerB", addr3)] 0)
  = ("",
     Some (errorString
       ("could not join a cluster from "
        +:+ "map[peerA:10.0.0.2:8300 peerB:10.0.0.3:8300]: "
        +:+ "peerA(10.0.0.2:8300): rpc error: code = Unavailable "
        +:+ "desc = connection refused; "
        +:+ "peerB(10.0.0.3:8300): rpc error: code = Unavailable "
        +:+ "desc = connection refused")),
     [EvJoin (Candidate "peerA") addr2 req1 None (Some refusal);
      EvSelect 50 None;
      EvJoin (Candidate "peerB") addr3 req1 None (Some refusal);
      EvSelect 50 None],
     2).
Proof. by vm_compute. Qed.

(** A follow-up that fails is recorded, and the next candidate is tried. *)
Example Do_leader_refuses_then_next :
  outcome (Do (node1 (tablePeer [(addr2, notLeader "10.0.0.9:8300");
                                 (addr3, accepted)]))
              false background [("node2", addr2); ("node3", addr3)] 0)
  = (addr3, None,
     [EvJoin (Candidate "node2") addr2 req1
             (Some (mkJoinPeerResponse "10.0.0.9:8300"))
             (Some (statusError codes.ResourceExhausted "not the leader"));
      EvJoin LeaderFollow "10.0.0.9:8300" req1 None (Some refusal);
      EvSelect 50 None;
      EvJoin (Candidate "node3") addr3 req1 (Some (mkJoinPeerResponse "")) None],
     1).
Proof. by vm_compute. Qed.

(** A call with no entry at all. *)
Example Do_empty_map :
  outcome (Do (node1 (tablePeer [])) false background [] 0)
  = ("", Some (errorString "could not join a cluster from map[]"), [], 0).
Proof. by vm_compute. Qed.

(** The span is handed to the tracer with the candidate set attached. *)
Example Do_span :
  spans (Do (node1 (tablePeer [])) true background [("node2", addr2)] 0)
  = [mkSpan "raft.bootstrap.join"
            [WithOpName "join";
             WithDescription "Attempt to join an existing cluster"]
            [("servers", [("node2", addr2)])]]
  ∧ spans (Do (node1 (tablePeer [])) false background [("node2", addr2)] 0)
    = [].
Proof. by vm_compute. Qed.

End Scenarios.

(** ** The theorems at concrete calls *)

Section Witnesses.
Import bootstrap cluster scenario.

(** [node1], [node2] refuses, [node3] accepts: [Do] returns [node3]'s
    address after one back-off wait. *)
Lemma Do_success_short_circuit_witness :
  outcome (Do (node1 (tablePeer [(addr3, accepted)])) false background
              ([("node1", addr1); ("node2", addr2)]
               ++ ("node3", addr3) :: [("node4", "10.0.0.4:8300")]) 0)
  = (addr3, None,
     [EvJoin (Candidate "node2") addr2 req1 None (Some refusal);
      EvSelect 50 None]
     ++ [EvJoin (Candidate "node3") addr3 req1
                (Some (mkJoinPeerResponse "")) None],
     1).
Proof.
  refine (Do_success_short_circuit
            (node1 (tablePeer [(addr3, accepted)])) false background
            [("node1", addr1); ("node2", addr2)]
            [("node4", "10.0.0.4:8300")] "node3" addr3 0 1
            ["node2(10.0.0.2:8300): rpc error: code = Unavailable "
             +:+ "desc = connection refused"]
            [EvJoin (Candidate "node2") addr2 req1 None (Some refusal);
             EvSelect 50 None]
            _ _ (Some (mkJoinPeerResponse "")) 1 _).
  - reflexivity.
  - discriminate.
  - reflexivity.
Defined.

(** [node2] is not the leader and names [addr3]; the leader accepts. *)
Lemma Do_leader_follow_witness :
  outcome (Do (node1 (tablePeer [(addr2, notLeader addr3); (addr3, accepted)]))
              false background
              ([("node1", addr1)] ++ ("node2", addr2) :: [("node3", addr3)]) 0)
  = (addr3, None,
     [] ++ [EvJoin (Candidate "node2") addr2 req1
                   (Some (mkJoinPeerResponse addr3))
                   (Some (statusError codes.ResourceExhausted
                                      "not the leader"));
            EvJoin LeaderFollow addr3 req1 (Some (mkJoinPeerResponse "")) None],
     0).
Proof.
  refine (Do_leader_follow
            (node1 (tablePeer [(addr2, notLeader addr3); (addr3, accepted)]))
            false background [("node1", addr1)] [("node3", addr3)]
            "node2" addr2 0 0 [] [] _ _
            (Some (mkJoinPeerResponse addr3))
            (statusError codes.ResourceExhausted "not the leader") 0
            (Some (mkJoinPeerResponse "")) None 0 _ _ _ _).
  - reflexivity.
  - discriminate.
  - reflexivity.
  - reflexivity.
  - discriminate.
  - reflexivity.
Defined.

(** [node2] is at capacity and sends no response: no follow-up, the failure
    is recorded, and [node3] is tried after the wait. *)
Lemma Do_nil_response_witness :
  GetLeader None = ""
  ∧ outcome (Do (node1 (tablePeer [(addr2, busy); (addr3, accepted)]))
                false background
                ([("node1", addr1)] ++ ("node2", addr2) :: [("node3", addr3)])
                0)
    = (addr3, None,
       [] ++ [EvJoin (Candidate "node2") addr2 req1 None
                     (Some (statusError codes.ResourceExhausted
                                        "too many requests"));
              EvSelect 50 None]
          ++ [EvJoin (Candidate "node3") addr3 req1
                     (Some (mkJoinPeerResponse "")) None],
       1).
Proof.
  refine (Do_nil_response
            (node1 (tablePeer [(addr2, busy); (addr3, accepted)]))
            false background [("node1", addr1)] [("node3", addr3)]
            "node2" addr2 0 0 [] [] _ _
            (statusError codes.ResourceExhausted "too many requests") 0 _).
  - reflexivity.
  - discriminate.
  - reflexivity.
Defined.

(** The only entry is the local node's own. *)
Lemma Do_no_candidates_witness :
  outcome (Do (node1 (tablePeer [(addr1, accepted)])) false background
              [("node1", addr1)] 0)
  = ("",
     Some (errorString ("could not join a cluster from "
                        +:+ GoFmt.fmtMap [("node1", addr1)])),
     [], 0).
Proof.
  apply (Do_no_candidates (node1 (tablePeer [(addr1, accepted)])) false
                          background [("node1", addr1)] 0).
  intros name addr Hin. apply list_elem_of_singleton in Hin.
  by injection Hin as -> _.
Defined.



(** No answer depends on the context. *)
Lemma Do_telemetry_independent_witness :
  outcome (Do (node1 (tablePeer [(addr2, notLeader addr3); (addr3, accepted)]))
              true background threeNodes 0)
  = outcome (Do (node1 (tablePeer [(addr2, notLeader addr3);
                                   (addr3, accepted)]))
                false background threeNodes 0).
Proof.
  apply (Do_telemetry_independent
           (node1 (tablePeer [(addr2, notLeader addr3); (addr3, accepted)]))
           background threeNodes 0).
  intros a rq w0. reflexivity.
Defined.

(** The follow-up of the call goes where [node2]'s response points. *)
Lemma Do_join_destinations_witness :
  req1 = joinRequest (node1 (tablePeer [(addr2, notLeader addr3);
                                        (addr3, accepted)]))
  ∧ ∃ name a0 resp0 e0,
      EvJoin (Candidate name) a0
             (joinRequest (node1 (tablePeer [(addr2, notLeader addr3);
                                             (addr3, accepted)])))
             resp0 (Some e0)
        ∈ events (Do (node1 (tablePeer [(addr2, notLeader addr3);
                                        (addr3, accepted)]))
                     false background threeNodes 0)
      ∧ redirects e0 resp0 = true ∧ addr3 = GetLeader resp0.
Proof.
  refine (Do_join_destinations
            (node1 (tablePeer [(addr2, notLeader addr3); (addr3, accepted)]))
            false background threeNodes 0
            LeaderFollow addr3 req1 (Some (mkJoinPeerResponse "")) None _).
  vm_compute. apply list_elem_of_further, list_elem_of_here.
Defined.

(** Both candidates refuse and the context stays live. *)
Lemma Do_exhausted_witness :
  leaderAddr (Do (node1 (tablePeer [])) false background threeNodes 0) = ""
  ∧ ∃ errors,
      err (Do (node1 (tablePeer [])) false background threeNodes 0)
        = Some (exhausted threeNodes errors)
      ∧ (∀ name addr, (name, addr) ∈ threeNodes →
           GoStrings.Contains (Error (exhausted threeNodes errors)) name = true
           ∧ GoStrings.Contains (Error (exhausted threeNodes errors)) addr
             = true)
      ∧ (∀ site a rq resp e,
           EvJoin site a rq resp (Some e)
             ∈ events (Do (node1 (tablePeer [])) false background
                          threeNodes 0) →
           GoStrings.Contains (Error (exhausted threeNodes errors)) a = true
           ∧ (endsTurn site e resp = true →
              GoStrings.Contains (Error (exhausted threeNodes errors))
                                 (recordOf site a e) = true)).
Proof.
  apply (Do_exhausted (node1 (tablePeer [])) false background threeNodes 0).
  vm_compute. by repeat constructor.
Defined.

End Witnesses.

(** ** Where the code departs from the specification's wording *)

Section Departures.
Import bootstrap cluster scenario.

(** Against C3 as stated.  [node2] answers that it is not the leader and
    names [addr1], the address the local node listens on and the one its own
    entry holds.  The entry is skipped, yet the follow-up [Join] goes to
    [addr1]. *)
Lemma Do_joins_local_address :
  localRaftAddr (node1 (tablePeer [(addr2, notLeader addr1)])) = addr1
  ∧ events (Do (node1 (tablePeer [(addr2, notLeader addr1)])) false
               background [("node1", addr1); ("node2", addr2)] 0)
    = [EvJoin (Candidate "node2") addr2 req1
              (Some (mkJoinPeerResponse addr1))
              (Some (statusError codes.ResourceExhausted "not the leader"));
       EvJoin LeaderFollow addr1 req1 None (Some refusal);
       EvSelect 50 None]
  ∧ existsb (joinsTo addr1)
            (events (Do (node1 (tablePeer [(addr2, notLeader addr1)])) false
                        background [("node1", addr1); ("node2", addr2)] 0))
    = true.
Proof. by vm_compute. Qed.

(** Against C4 as stated.  The only candidate refuses, so every candidate
    has failed, and the context is cancelled during the wait that follows:
    [Do] returns the context's error, whose text names neither the candidate
    nor its address. *)
Lemma Do_all_failed_yet_context_error :
  forallb joinFailed
          (events (Do (node1 (tablePeer [])) false (cancelledDuring 0)
                      [("node2", addr2)] 0)) = true
  ∧ events (Do (node1 (tablePeer [])) false (cancelledDuring 0)
               [("node2", addr2)] 0)
    = [EvJoin (Candidate "node2") addr2 req1 None (Some refusal);
       EvSelect 50 (Some ContextCanceled)]
  ∧ err (Do (node1 (tablePeer [])) false (cancelledDuring 0)
            [("node2", addr2)] 0) = Some (ctxErr ContextCanceled)
  ∧ GoStrings.Contains (Error (ctxErr ContextCanceled)) "node2" = false
  ∧ GoStrings.Contains (Error (ctxErr ContextCanceled)) addr2 = false.
Proof. by vm_compute. Qed.


(** Against C9 as stated.  The only candidate is answered by a peer joiner
    that refuses calls made under a tracing span.  With telemetry off [Do]
    joins through [node2]; with telemetry on the same call, under the same
    context and with the same peers, runs out of candidates. *)
Lemma Do_telemetry_changes_outcome :
  (leaderAddr (Do (node1 spanWary) false background [("node2", addr2)] 0),
   err (Do (node1 spanWary) false background [("node2", addr2)] 0))
  = (addr2, None)
  ∧ (leaderAddr (Do (node1 spanWary) true background [("node2", addr2)] 0),
     err (Do (node1 spanWary) true background [("node2", addr2)] 0))
    = ("",
       Some (errorString
               ("could not join a cluster from map[node2:10.0.0.2:8300]: "
                +:+ "node2(10.0.0.2:8300): rpc error: code = Unavailable "
                +:+ "desc = connection refused")))
  ∧ spans (Do (node1 spanWary) true background [("node2", addr2)] 0)
    = [SetData joinSpan "servers" [("node2", addr2)]].
Proof. by vm_compute. Qed.

End Departures.

(** * Further properties of the join loop *)

(** ** The order of the events *)

Section Order.
Import bootstrap run.
Implicit Types (req : JoinPeerRequest) (errors : list string).
Implicit Types (t : list Event) (f : Flow) (prev : option Event).

Lemma lastOr_cons prev ev t : lastOr prev (ev :: t) = lastOr (Some ev) t.
Proof. unfold lastOr. rewrite last_cons. by destruct (last t). Qed.

Lemma follows_app prev t t' :
  follows prev (t ++ t') = follows prev t && follows (lastOr prev t) t'.
Proof.
  revert prev. induction t as [|ev t IH]; intros prev; [done |].
  cbn [app follows]. by rewrite IH, lastOr_cons, andb_assoc.
Qed.

Lemma follows_at prev t1 ev t2 :
  follows prev (t1 ++ ev :: t2) = true → okAfter (lastOr prev t1) ev = true.
Proof.
  rewrite follows_app. cbn [follows].
  intros [_ [H _]%andb_true_iff]%andb_true_iff. exact H.
Qed.

Lemma Turn_follows self req errors name addr f t prev :
  Turn self req errors name addr f t →
  startsTurn prev = true →
  follows prev t = true
  ∧ ∀ errors', f = Next errors' → startsTurn (lastOr prev t) = true.
Proof.
  destruct 1 as [|resp1|resp1 e1 resp2 ? Hred|resp1 e1 resp2 e2 dn ? Hred
                |resp1 e1 dn ? Hred]; intros Hprev; cbn [follows okAfter].
  - by split.
  - rewrite Hprev. by split.
  - rewrite Hprev, Hred, String.eqb_refl. by split.
  - rewrite Hprev, Hred, String.eqb_refl. split; [done |].
    intros errors'. by destruct dn.
  - rewrite Hprev. cbn [endsTurn]. rewrite Hred. split; [done |].
    intros errors'. by destruct dn.
Qed.

Lemma Loop_follows self req entries errors f t prev :
  Loop self req entries errors f t →
  startsTurn prev = true → follows prev t = true.
Proof.
  intros Hloop. revert prev.
  induction Hloop as [errors|name addr rest errors leader e t Ht
                     |name addr rest errors errors1 t f t' Ht Hl IH];
    intros prev Hprev.
  - done.
  - by destruct (Turn_follows _ _ _ _ _ _ _ _ Ht Hprev).
  - destruct (Turn_follows _ _ _ _ _ _ _ _ Ht Hprev) as [Hf Hlast].
    rewrite follows_app, Hf. apply IH. by eapply Hlast.
Qed.

Lemma Do_follows {W} (j : Joiner W) sentryEnabled ctx remoteNodes w :
  follows None (events (Do j sentryEnabled ctx remoteNodes w)) = true.
Proof.
  destruct (Do_Loop j sentryEnabled ctx remoteNodes w) as (f & Hloop & _).
  by eapply Loop_follows.
Qed.

Lemma lastOr_None_inv t ev :
  lastOr None t = Some ev → ∃ t0, t = t0 ++ [ev].
Proof.
  unfold lastOr. destruct (last t) as [ev'|] eqn:Hl; [| done].
  intros [= ->]. by apply last_Some.
Qed.

End Order.

(** ** Candidates, attempts and recorded failures *)

Section Attempts.
Import bootstrap run.
Implicit Types (req : JoinPeerRequest) (errors : list string).
Implicit Types (t : list Event) (f : Flow) (entries : list (string * string)).

Lemma candidates_cons_self self addr entries :
  candidates self ((self, addr) :: entries) = candidates self entries.
Proof. unfold candidates. by rewrite filter_cons_False by (simpl; auto). Qed.

Lemma candidates_cons_other self name addr entries :
  name ≠ self →
  candidates self ((name, addr) :: entries)
  = (name, addr) :: candidates self entries.
Proof. intros Hne. unfold candidates. by rewrite filter_cons_True. Qed.

Lemma attempted_app t t' : attempted (t ++ t') = attempted t ++ attempted t'.
Proof. apply omap_app. Qed.

Lemma recordsOf_app t t' : recordsOf (t ++ t') = recordsOf t ++ recordsOf t'.
Proof. apply omap_app. Qed.

Lemma joins_app t t' : joins (t ++ t') = (joins t + joins t')%nat.
Proof. unfold joins. by rewrite List.filter_app, length_app. Qed.

Lemma waited_app t t' : waited (t ++ t') = (waited t + waited t')%Z.
Proof.
  induction t as [|ev t IH]; [done |].
  rewrite <- app_comm_cons. unfold waited in *. cbn [foldr]. rewrite IH.
  destruct ev; lia.
Qed.

(** A turn that attempts nothing is the turn of the local entry; any other
    turn attempts its entry, once, before anything else. *)
Lemma Turn_attempted self req errors name addr f t :
  Turn self req errors name addr f t →
  candidates self [(name, addr)] = attempted t
  ∧ (joins t ≤ 2 * length (attempted t))%nat
  ∧ (0 ≤ waited t ≤ 50 * Z.of_nat (length (attempted t)))%Z.
Proof.
  destruct 1 as [->|resp1|resp1 e1 resp2 ? Hred|resp1 e1 resp2 e2 dn ? Hred
                |resp1 e1 dn ? Hred].
  - rewrite candidates_cons_self. split; [done | cbn; lia].
  - rewrite candidates_cons_other by done. split; [done | cbn; lia].
  - rewrite candidates_cons_other by done. split; [done | cbn; lia].
  - rewrite candidates_cons_other by done. split; [done | cbn; lia].
  - rewrite candidates_cons_other by done. split; [done | cbn; lia].
Qed.

Lemma candidates_cons self name addr entries :
  candidates self ((name, addr) :: entries)
  = candidates self [(name, addr)] ++ candidates self entries.
Proof.
  destruct (decide (name = self)) as [->|Hne].
  - by rewrite !candidates_cons_self.
  - by rewrite !candidates_cons_other.
Qed.

Lemma Loop_attempted self req entries errors f t :
  Loop self req entries errors f t →
  attempted t `prefix_of` candidates self entries
  ∧ (∀ errors', f = Next errors' → attempted t = candidates self entries)
  ∧ (joins t ≤ 2 * length (attempted t))%nat
  ∧ (0 ≤ waited t ≤ 50 * Z.of_nat (length (attempted t)))%Z.
Proof.
  induction 1 as [errors|name addr rest errors leader e t Ht
                 |name addr rest errors errors1 t f t' Ht Hl IH].
  - repeat split; cbn; done || lia.
  - destruct (Turn_attempted _ _ _ _ _ _ _ Ht) as (Hc & Hj & Hw).
    rewrite candidates_cons, Hc. repeat split; try done || lia.
    by apply prefix_app_r.
  - destruct (Turn_attempted _ _ _ _ _ _ _ Ht) as (Hc & Hj & Hw).
    destruct IH as (Hp & Hall & Hj' & Hw').
    rewrite candidates_cons, Hc, attempted_app, joins_app, waited_app.
    rewrite length_app. repeat split; try lia.
    + by apply prefix_app.
    + intros errors' Hf. by rewrite (Hall _ Hf).
Qed.

(** What the loop hands on is what it was given plus the records of its
    failed turns, one for each candidate. *)
Lemma Turn_records self req errors name addr f t :
  Turn self req errors name addr f t →
  ∀ errors', f = Next errors' →
    errors' = errors ++ recordsOf t
    ∧ length (recordsOf t) = length (attempted t)
    ∧ waited t = (50 * Z.of_nat (length (attempted t)))%Z.
Proof.
  destruct 1 as [->|resp1|resp1 e1 resp2 ? Hred|resp1 e1 resp2 e2 dn ? Hred
                |resp1 e1 dn ? Hred]; intros errors' Hf; try discriminate Hf.
  - injection Hf as <-. by rewrite app_nil_r.
  - destruct dn; [discriminate Hf |]. injection Hf as <-.
    cbn [recordsOf omap list_omap endsTurn recordOf]. rewrite Hred.
    repeat split; cbn; lia.
  - destruct dn; [discriminate Hf |]. injection Hf as <-.
    cbn [recordsOf omap list_omap endsTurn recordOf]. rewrite Hred.
    repeat split; cbn; lia.
Qed.

Lemma Loop_records self req entries errors f t :
  Loop self req entries errors f t →
  ∀ errors', f = Next errors' →
    errors' = errors ++ recordsOf t
    ∧ length (recordsOf t) = length (attempted t)
    ∧ waited t = (50 * Z.of_nat (length (attempted t)))%Z.
Proof.
  induction 1 as [errors|name addr rest errors leader e t Ht
                 |name addr rest errors errors1 t f t' Ht Hl IH];
    intros errors' Hf.
  - injection Hf as <-. by rewrite app_nil_r.
  - discriminate Hf.
  - destruct (Turn_records _ _ _ _ _ _ _ Ht _ eq_refl) as (-> & Hlen & Hw).
    destruct (IH _ Hf) as (-> & Hlen' & Hw').
    rewrite recordsOf_app, attempted_app, waited_app, !length_app, app_assoc.
    repeat split; done || lia.
Qed.

(** A loop none of whose events is terminal has fallen through. *)
Lemma Loop_fell_through self req entries errors f t :
  Loop self req entries errors f t →
  Forall (λ ev, terminal ev = None) t →
  ∃ errors', f = Next errors'.
Proof.
  intros Hloop Hall. apply Loop_returnsAtTerminal in Hloop.
  destruct f as [leader e|errors']; [| by eexists].
  destruct Hloop as (t0 & ev & -> & _ & Hterm).
  rewrite Forall_app, Forall_singleton in Hall. destruct Hall as [_ Hev].
  by rewrite Hterm in Hev.
Qed.

Lemma recordedFor_app_l t t' entry record :
  recordedFor t entry record → recordedFor (t ++ t') entry record.
Proof.
  intros (t1 & rq & resp & e & rest & -> & Hrec).
  exists t1, rq, resp, e, (rest ++ t'). split; [by rewrite <- app_assoc |].
  destruct (redirects e resp); [| done].
  destruct Hrec as (resp2 & e2 & t2 & -> & ->).
  by exists resp2, e2, (t2 ++ t').
Qed.

Lemma recordedFor_app_r t t' entry record :
  recordedFor t' entry record → recordedFor (t ++ t') entry record.
Proof.
  intros (t1 & rq & resp & e & rest & -> & Hrec).
  exists (t ++ t1), rq, resp, e, rest. by rewrite <- app_assoc.
Qed.

Lemma Turn_record_per_candidate self req errors name addr f t :
  Turn self req errors name addr f t →
  ∀ errors', f = Next errors' →
    ∃ records, errors' = errors ++ records
               ∧ Forall2 (recordedFor t) (candidates self [(name, addr)])
                         records.
Proof.
  destruct 1 as [->|resp1|resp1 e1 resp2 ? Hred|resp1 e1 resp2 e2 dn ? Hred
                |resp1 e1 dn ? Hred]; intros errors' Hf; try discriminate Hf.
  - injection Hf as <-. exists []. rewrite candidates_cons_self, app_nil_r.
    split; [done | constructor].
  - destruct dn; [discriminate Hf |]. injection Hf as <-.
    eexists. split; [done |]. rewrite candidates_cons_other by done.
    constructor; [| constructor].
    exists [], req, resp1, e1. eexists. split; [done |]. rewrite Hred.
    by exists resp2, e2, [EvSelect 50 None].
  - destruct dn; [discriminate Hf |]. injection Hf as <-.
    eexists. split; [done |]. rewrite candidates_cons_other by done.
    constructor; [| constructor].
    exists [], req, resp1, e1. eexists. split; [done |]. by rewrite Hred.
Qed.

Lemma Loop_record_per_candidate self req entries errors f t :
  Loop self req entries errors f t →
  ∀ errors', f = Next errors' →
    ∃ records, errors' = errors ++ records
               ∧ Forall2 (recordedFor t) (candidates self entries) records.
Proof.
  induction 1 as [errors|name addr rest errors leader e t Ht
                 |name addr rest errors errors1 t f t' Ht Hl IH];
    intros errors' Hf.
  - injection Hf as <-. exists []. rewrite app_nil_r.
    split; [done | constructor].
  - discriminate Hf.
  - destruct (Turn_record_per_candidate _ _ _ _ _ _ _ Ht _ eq_refl)
      as (records1 & -> & Hrec1).
    destruct (IH _ Hf) as (records2 & -> & Hrec2).
    exists (records1 ++ records2). split; [by rewrite app_assoc |].
    rewrite candidates_cons. apply Forall2_app.
    + eapply Forall2_impl; [exact Hrec1 |].
      intros entry record. apply recordedFor_app_l.
    + eapply Forall2_impl; [exact Hrec2 |].
      intros entry record. apply recordedFor_app_r.
Qed.

End Attempts.

(** ** Whole calls *)

Section Runs.
Import bootstrap run.
Context {W : Type}.
Implicit Types (j : Joiner W) (ctx : Ctx W) (w : W).
Implicit Types (remoteNodes : list (string * string)).

(** X1 (payload).  A joiner built by [NewJoiner] sends, in every [Join] of a
    call, candidate attempt or leader follow-up, the request made of the
    node id, the Raft address and the voter flag it was built with; and no
    candidate attempt is made for an entry filed under that node id. *)
Theorem Do_sends_what_NewJoiner_got (pj : PeerJoiner W) id raftAddr voter
    sentryEnabled ctx remoteNodes w site a rq resp er :
  EvJoin site a rq resp er
    ∈ events (Do (NewJoiner pj id raftAddr voter) sentryEnabled ctx
                 remoteNodes w) →
  rq = mkJoinPeerRequest id raftAddr voter
  ∧ site ≠ Candidate id.
Proof.
  destruct (Do_Loop (NewJoiner pj id raftAddr voter) sentryEnabled ctx
                    remoteNodes w) as (f & Hloop & _).
  intros Hin.
  destruct (Loop_destinations _ _ _ _ _ _ _ _ _ _ _ Hloop Hin) as [-> Hs].
  split; [done |]. destruct site as [name|]; [| done].
  destruct Hs as [Hne _]. intros [= ->]. by apply Hne.
Qed.

(** X2 (the three ways a call ends).  A call of [Do] ends in one of three
    ways.  Either its last event is a [Join] that succeeded, and it
    returns the destination of that [Join] with a nil error; or its last
    event is a wait cut short by the context, and it returns the empty
    address with the context's error; or none of its events is a success
    or a cancellation, and it returns the empty address with the error
    built from [remoteNodes] and the failures recorded during the call, in
    the order they happened.  In particular a non-nil error always comes
    with the empty address. *)
Theorem Do_ends_in_one_of_three_ways j sentryEnabled ctx remoteNodes w :
  (∃ t0 site rq resp,
     events (Do j sentryEnabled ctx remoteNodes w)
       = t0 ++ [EvJoin site (leaderAddr (Do j sentryEnabled ctx remoteNodes w))
                       rq resp None]
     ∧ Forall (λ ev, terminal ev = None) t0
     ∧ err (Do j sentryEnabled ctx remoteNodes w) = None)
  ∨ (∃ t0 ms ce,
       events (Do j sentryEnabled ctx remoteNodes w)
         = t0 ++ [EvSelect ms (Some ce)]
       ∧ Forall (λ ev, terminal ev = None) t0
       ∧ leaderAddr (Do j sentryEnabled ctx remoteNodes w) = ""
       ∧ err (Do j sentryEnabled ctx remoteNodes w) = Some (ctxErr ce))
  ∨ (Forall (λ ev, terminal ev = None)
            (events (Do j sentryEnabled ctx remoteNodes w))
     ∧ leaderAddr (Do j sentryEnabled ctx remoteNodes w) = ""
     ∧ err (Do j sentryEnabled ctx remoteNodes w)
       = Some (exhausted remoteNodes
                 (recordsOf (events (Do j sentryEnabled ctx remoteNodes w))))).
Proof.
  destruct (Do_Loop j sentryEnabled ctx remoteNodes w) as (f & Hloop & Hres).
  pose proof (Loop_returnsAtTerminal _ _ _ _ _ _ Hloop) as Hshape.
  destruct f as [leader e|errors]; simpl in Hshape.
  - destruct Hshape as (t0 & ev & Heq & Hall & Hterm).
    injection Hres as Hl He.
    destruct ev as [site a rq resp [e'|]|ms [ce|]]; try discriminate Hterm.
    + injection Hterm as <- <-. left. exists t0, site, rq, resp.
      by rewrite Hl.
    + injection Hterm as <- <-. right. left. by exists t0, ms, ce.
  - injection Hres as Hl He. right. right.
    destruct (Loop_records _ _ _ _ _ _ Hloop _ eq_refl) as (-> & _).
    by rewrite app_nil_l in He.
Qed.

(** X3 (order of the attempts).  The candidate attempts of a call are made
    for the entries of [remoteNodes] filed under another id than the local
    one, in the order the loop meets them, each with the address of its
    entry and each once: the attempts made are an initial stretch of that
    list, and all of it when the call ended neither with a success nor
    with a cancellation. *)
Theorem Do_attempts_in_order j sentryEnabled ctx remoteNodes w :
  attempted (events (Do j sentryEnabled ctx remoteNodes w))
    `prefix_of` candidates (localNodeID j) remoteNodes
  ∧ (Forall (λ ev, terminal ev = None)
            (events (Do j sentryEnabled ctx remoteNodes w)) →
     attempted (events (Do j sentryEnabled ctx remoteNodes w))
     = candidates (localNodeID j) remoteNodes).
Proof.
  destruct (Do_Loop j sentryEnabled ctx remoteNodes w) as (f & Hloop & _).
  destruct (Loop_attempted _ _ _ _ _ _ Hloop) as (Hp & Hall & _).
  split; [done |]. intros Hnone.
  destruct (Loop_fell_through _ _ _ _ _ _ Hloop Hnone) as [errors' ->].
  by eapply Hall.
Qed.

(** X4 (cost of a call).  A call sends at most two [Join]s for each entry
    filed under another id than the local one, and the timers it waits for
    add up to at most 50ms for each such entry. *)
Theorem Do_cost_bounded j sentryEnabled ctx remoteNodes w :
  (joins (events (Do j sentryEnabled ctx remoteNodes w))
   ≤ 2 * length (candidates (localNodeID j) remoteNodes))%nat
  ∧ (0 ≤ waited (events (Do j sentryEnabled ctx remoteNodes w))
     ≤ 50 * Z.of_nat (length (candidates (localNodeID j) remoteNodes)))%Z.
Proof.
  destruct (Do_Loop j sentryEnabled ctx remoteNodes w) as (f & Hloop & _).
  destruct (Loop_attempted _ _ _ _ _ _ Hloop) as (Hp & _ & Hj & Hw).
  apply prefix_length in Hp. lia.
Qed.

(** X5 (when the call waits).  Every wait of a call is the 50ms [select],
    and it comes directly after a failed [Join] that ended the turn of a
    candidate: [Do] never waits before its first [Join], after a success,
    after a redirecting failure or twice in a row. *)
Theorem Do_waits_only_after_failure j sentryEnabled ctx remoteNodes w
    t1 ms d t2 :
  events (Do j sentryEnabled ctx remoteNodes w) = t1 ++ EvSelect ms d :: t2 →
  ms = 50%Z
  ∧ ∃ t0 site a rq resp e,
      t1 = t0 ++ [EvJoin site a rq resp (Some e)]
      ∧ endsTurn site e resp = true.
Proof.
  intros Heq. pose proof (Do_follows j sentryEnabled ctx remoteNodes w) as Hf.
  rewrite Heq in Hf. apply follows_at in Hf. cbn [okAfter] in Hf.
  apply andb_true_iff in Hf as [Hms Hprev]. apply Z.eqb_eq in Hms.
  split; [done |].
  destruct (lastOr None t1) as [[site a rq resp [e|]|]|] eqn:Hlast;
    try discriminate Hprev.
  apply lastOr_None_inv in Hlast as [t0 ->]. by exists t0, site, a, rq, resp, e.
Qed.

(** X6 (one hop).  A leader follow-up comes directly after a candidate
    attempt that failed with a resource-exhausted status and a response
    naming a leader, and it goes to that leader: a redirect is followed
    once, and what a follow-up answers never causes another follow-up. *)
Theorem Do_follows_up_one_hop j sentryEnabled ctx remoteNodes w
    t1 a rq resp er t2 :
  events (Do j sentryEnabled ctx remoteNodes w)
    = t1 ++ EvJoin LeaderFollow a rq resp er :: t2 →
  ∃ t0 name a0 rq0 resp0 e0,
    t1 = t0 ++ [EvJoin (Candidate name) a0 rq0 resp0 (Some e0)]
    ∧ status.Code (status.Convert e0) = codes.ResourceExhausted
    ∧ GetLeader resp0 ≠ ""
    ∧ a = GetLeader resp0.
Proof.
  intros Heq. pose proof (Do_follows j sentryEnabled ctx remoteNodes w) as Hf.
  rewrite Heq in Hf. apply follows_at in Hf. cbn [okAfter] in Hf.
  destruct (lastOr None t1) as [[[name|] a0 rq0 resp0 [e0|]|]|] eqn:Hlast;
    try discriminate Hf.
  apply andb_true_iff in Hf as [Hred Ha].
  apply redirects_true in Hred as [Hcode Hleader]. apply String.eqb_eq in Ha.
  apply lastOr_None_inv in Hlast as [t0 ->].
  by exists t0, name, a0, rq0, resp0, e0.
Qed.

(** X7 (pacing of the attempts).  A candidate attempt, the [Join] the loop
    sends for an entry of [remoteNodes], is the first event of its call or
    comes directly after a 50ms wait whose timer fired.  This speaks of
    candidate attempts only: a leader follow-up is sent without a wait,
    also when the leader named is the address of another entry. *)
Theorem Do_attempts_after_full_wait j sentryEnabled ctx remoteNodes w
    t1 name a rq resp er t2 :
  events (Do j sentryEnabled ctx remoteNodes w)
    = t1 ++ EvJoin (Candidate name) a rq resp er :: t2 →
  t1 = [] ∨ ∃ t0, t1 = t0 ++ [EvSelect 50 None].
Proof.
  intros Heq. pose proof (Do_follows j sentryEnabled ctx remoteNodes w) as Hf.
  rewrite Heq in Hf. pose proof Hf as Hat. apply follows_at in Hat.
  cbn [okAfter] in Hat.
  destruct (lastOr None t1) as [[|ms [ce|]]|] eqn:Hlast;
    try discriminate Hat.
  - apply lastOr_None_inv in Hlast as [t0 ->]. right. exists t0.
    rewrite <- app_assoc in Hf. apply follows_at in Hf. cbn [okAfter] in Hf.
    apply andb_true_iff in Hf as [Hms _]. apply Z.eqb_eq in Hms. by subst ms.
  - left. unfold lastOr in Hlast. destruct (last t1) eqn:Hl; [done |].
    by apply last_None in Hl.
Qed.

Lemma rangeLoop_candidates j ctx req entries errors w :
  rangeLoop j ctx req (candidates (localNodeID j) entries) errors w
  = rangeLoop j ctx req entries errors w.
Proof.
  revert errors w.
  induction entries as [|[name addr] rest IH]; intros errors w; [done |].
  destruct (decide (name = localNodeID j)) as [->|Hne].
  - rewrite candidates_cons_self, IH, (rangeLoop_cons _ _ _ (_, _)).
    rewrite body_self by done.
    by destruct (rangeLoop j ctx req rest errors w) as [[f t] w1].
  - rewrite candidates_cons_other by done. rewrite !rangeLoop_cons.
    destruct (body j ctx req errors (name, addr) w)
      as [[[leader e|errors1] t] w1]; [done |].
    by rewrite IH.
Qed.

Lemma ctxWait_joinCtx sentryEnabled ctx remoteNodes :
  ctxWait (joinCtx sentryEnabled ctx remoteNodes) = ctxWait ctx.
Proof. by destruct sentryEnabled. Qed.

(** X8 (the local entry is inert).  Leaving out the entries of [remoteNodes]
    filed under the local node id changes the servers attached to the
    tracing span and the map printed in the final error, and nothing else.
    With telemetry off, or with a peer joiner that answers alike whichever
    of the two server lists the span in its context carries, a call with
    those entries and a call without them send the same [Join]s, wait
    alike, leave the same world behind and return the same address; they
    return the same error as well, unless both run out of candidates, and
    then both errors are built from the same recorded failures. *)
Theorem Do_local_entries_inert j sentryEnabled ctx remoteNodes w :
  (∀ a rq w0,
     Join (peerJoiner j)
          (joinCtx sentryEnabled ctx (candidates (localNodeID j) remoteNodes))
          a rq w0
     = Join (peerJoiner j) (joinCtx sentryEnabled ctx remoteNodes) a rq w0) →
  events (Do j sentryEnabled ctx (candidates (localNodeID j) remoteNodes) w)
  = events (Do j sentryEnabled ctx remoteNodes w)
  ∧ world (Do j sentryEnabled ctx (candidates (localNodeID j) remoteNodes) w)
    = world (Do j sentryEnabled ctx remoteNodes w)
  ∧ leaderAddr
      (Do j sentryEnabled ctx (candidates (localNodeID j) remoteNodes) w)
    = leaderAddr (Do j sentryEnabled ctx remoteNodes w)
  ∧ (err (Do j sentryEnabled ctx (candidates (localNodeID j) remoteNodes) w)
     = err (Do j sentryEnabled ctx remoteNodes w)
     ∨ ∃ errors,
         err (Do j sentryEnabled ctx (candidates (localNodeID j) remoteNodes)
                 w)
         = Some (exhausted (candidates (localNodeID j) remoteNodes) errors)
         ∧ err (Do j sentryEnabled ctx remoteNodes w)
           = Some (exhausted remoteNodes errors)).
Proof.
  intros Hjoin.
  pose proof (outcome_Do j sentryEnabled ctx remoteNodes w) as H1.
  pose proof (outcome_Do j sentryEnabled ctx
                (candidates (localNodeID j) remoteNodes) w) as H2.
  unfold loopThenReturn, mbind, Act_bind in H1, H2.
  rewrite rangeLoop_candidates in H2.
  rewrite (rangeLoop_ctx_ext j _ (joinCtx sentryEnabled ctx remoteNodes))
    in H2 by (intros; by rewrite ?Hjoin, ?ctxWait_joinCtx).
  destruct (rangeLoop j (joinCtx sentryEnabled ctx remoteNodes) (joinRequest j)
              remoteNodes [] w) as [[[leader e|errors] t] w1];
    unfold mret, Act_ret, outcome in H1, H2;
    injection H1 as -> -> -> ->; injection H2 as -> -> -> ->.
  - repeat split. by left.
  - repeat split. right. by exists errors.
Qed.

(** X9 (one record for each candidate).  When a call ended neither with a
    success nor with a cancellation, the error it returns is built from
    [remoteNodes] and a list of records that matches the entries filed
    under another id than the local one, one for one and in order.  The
    record of a candidate is the text of the error its own [Join] returned,
    under its id and address, when that failure did not redirect; otherwise
    it is the text of the error returned by the follow-up [Join] sent
    directly after it to the leader its response named, under the tag
    [leader] and that leader's address, and the redirecting error of the
    candidate itself is not recorded. *)
Theorem Do_one_record_per_candidate j sentryEnabled ctx remoteNodes w :
  Forall (λ ev, terminal ev = None)
         (events (Do j sentryEnabled ctx remoteNodes w)) →
  ∃ errors,
    err (Do j sentryEnabled ctx remoteNodes w)
    = Some (exhausted remoteNodes errors)
    ∧ Forall2 (recordedFor (events (Do j sentryEnabled ctx remoteNodes w)))
              (candidates (localNodeID j) remoteNodes) errors.
Proof.
  destruct (Do_Loop j sentryEnabled ctx remoteNodes w) as (f & Hloop & Hres).
  intros Hnone.
  destruct (Loop_fell_through _ _ _ _ _ _ Hloop Hnone) as [errors' ->].
  destruct (Loop_record_per_candidate _ _ _ _ _ _ Hloop _ eq_refl)
    as (records & -> & Hrec).
  injection Hres as _ He. by exists records.
Qed.

End Runs.

(** ** A failure that does not redirect *)

Section NotRedirected.
Import bootstrap.
Context {W : Type}.
Variables (j : Joiner W) (sentryEnabled : bool) (ctx : Ctx W).
Variables (pre post : list (string * string)) (name addr : string).
Variables (w w1 : W) (errors : list string) (t : list Event).

Local Abbreviation remoteNodes := (pre ++ (name, addr) :: post).
Local Abbreviation ctx' := (joinCtx sentryEnabled ctx remoteNodes).
Local Abbreviation req := (joinRequest j).

Hypothesis reached : rangeLoop j ctx' req pre [] w = (Next errors, t, w1).
Hypothesis other : name ≠ localNodeID j.

Lemma redirects_false e resp :
  redirects e resp = false ↔
  status.Code (status.Convert e) ≠ codes.ResourceExhausted
  ∨ GetLeader resp = "".
Proof.
  rewrite <- not_true_iff_false, redirects_true. split.
  - intros Hn. destruct (decide (GetLeader resp = "")) as [|Hl]; [by right |].
    left. intros Hc. by apply Hn.
  - intros [Hc|Hl] [Hc' Hl']; [by apply Hc | by apply Hl'].
Qed.

(** X10 (no redirect).  When the [Join] sent to a candidate fails with any
    status other than resource-exhausted (not-found and unavailable among
    them, and every error that carries no status), or with a response whose
    leader is empty, the leader the response may name is not dialled: the
    next event is the back-off [select], the failure is recorded under the
    candidate's id and address, and the loop goes on with the entries
    [post] unless the context is done during the wait. *)
Theorem Do_not_redirected resp e w2 :
  Join (peerJoiner j) ctx' addr req w1 = (resp, Some e, w2) →
  status.Code (status.Convert e) ≠ codes.ResourceExhausted
  ∨ GetLeader resp = "" →
  outcome (Do j sentryEnabled ctx remoteNodes w) =
    let first := EvJoin (Candidate name) addr req resp (Some e) in
    let errors' :=
      errors ++ [name +:+ "(" +:+ addr +:+ "): " +:+ Error e] in
    match ctxWait ctx' 50 w2 with
    | (Some ce, w3) =>
        ("", Some (ctxErr ce), t ++ [first; EvSelect 50 (Some ce)], w3)
    | (None, w3) =>
        let '(leader, er, t', w4) :=
          loopThenReturn j ctx' req remoteNodes post errors' w3 in
        (leader, er, t ++ [first; EvSelect 50 None] ++ t', w4)
    end.
Proof.
  intros Hjoin Hno. apply redirects_false in Hno.
  rewrite (Do_reaches _ _ _ _ _ _ _ _ _ reached).
  rewrite loopThenReturn_cons, body_other by done.
  rewrite Hjoin. cbv zeta. rewrite Hno.
  destruct (ctxWait ctx' 50 w2) as [[ce|] w3]; simpl; [done |].
  by destruct (loopThenReturn _ _ _ _ post _ w3) as [[[??]?]?].
Qed.

End NotRedirected.

(** ** The cluster-state reader of the tests *)

Section Reader.
Import cluster.
Implicit Types (m : mockClusterStateReader) (raftPort : Z).

(** X11 (members of the mock reader).  [AllClusterMembers] lists a node
    exactly when [NodeAddress] gives a non-empty address for it, and then
    under that address followed by a colon and the port in decimal; a node
    it lists is one [NodeHostname] knows, with the same address. *)
Theorem AllClusterMembers_NodeAddress m raftPort id v :
  AllClusterMembers m raftPort !! id = Some v ↔
  NodeAddress m id ≠ ""
  ∧ v = NodeAddress m id +:+ ":" +:+ GoStrings.Itoa raftPort
  ∧ NodeHostname m id = (NodeAddress m id, true).
Proof.
  rewrite AllClusterMembers_lookup. unfold NodeAddress, NodeHostname, hostPort.
  destruct (addresses m !! id) as [addr|]; simpl.
  - destruct (decide (addr = "")) as [->|Hne].
    + split; [done | by intros [? _]].
    + split; [by intros [= <-] | by intros (_ & -> & _)].
  - split; [done | by intros [? _]].
Qed.

Lemma AllClusterMembers_dom m raftPort :
  dom (AllClusterMembers m raftPort) = dom (resolvable m).
Proof.
  apply set_eq. intros id. rewrite !elem_of_dom. unfold is_Some.
  rewrite AllClusterMembers_lookup. unfold resolvable.
  setoid_rewrite map_lookup_filter_Some. simpl.
  destruct (addresses m !! id) as [addr|].
  - destruct (decide (addr = "")) as [->|Hne]; split.
    + by intros [? ?].
    + by intros (? & [= <-] & ?).
    + intros _. by exists addr.
    + intros _. by eexists.
  - split; [by intros [? ?] | by intros (? & ? & ?)].
Qed.

(** X12 (size of the member list).  The nodes [AllClusterMembers] lists are
    nodes of the reader's address table, the same ones for every port, and
    there are as many of them as addresses that are not empty; none is left
    out exactly when no address of the table is empty. *)
Theorem AllClusterMembers_size m raftPort :
  dom (AllClusterMembers m raftPort) = dom (resolvable m)
  ∧ dom (AllClusterMembers m raftPort) ⊆ dom (addresses m)
  ∧ (size (AllClusterMembers m raftPort) ≤ size (addresses m))%nat
  ∧ (size (AllClusterMembers m raftPort) = size (addresses m) ↔
     map_Forall (λ _ addr, addr ≠ "") (addresses m)).
Proof.
  pose proof (AllClusterMembers_dom m raftPort) as Hdom.
  assert (size (AllClusterMembers m raftPort) = size (resolvable m)) as Hsize.
  { by rewrite <- !(size_dom (D:=gset string)), Hdom. }
  split; [done |]. rewrite Hdom, Hsize. unfold resolvable. split.
  { apply subseteq_dom, map_filter_subseteq. }
  split; [apply map_size_filter |]. split.
  - intros Heq id addr Hid.
    assert (filter (λ kv : string * string, kv.2 ≠ "") (addresses m)
            = addresses m) as Hall.
    { apply map_subseteq_size_eq; [apply map_filter_subseteq | lia]. }
    rewrite <- Hall in Hid. by apply map_lookup_filter_Some in Hid as [_ ?].
  - intros Hall. by rewrite map_filter_id.
Qed.

End Reader.

(** ** Calls and what the collaborators answer *)

Section Answers.
Import bootstrap run.
Context {W : Type}.
Implicit Types (j : Joiner W) (ctx : Ctx W) (w : W).
Implicit Types (remoteNodes : list (string * string)).

Lemma body_answeredBy j ctx req errors entry w f t w' :
  body j ctx req errors entry w = (f, t, w') →
  Forall (answeredBy (peerJoiner j) ctx) t.
Proof.
  destruct entry as [name addr].
  destruct (decide (name = localNodeID j)) as [Heq|Hne].
  { rewrite body_self by done. intros [= <- <- <-]. constructor. }
  rewrite body_other by done.
  destruct (Join _ ctx addr req w) as [[resp er] w1] eqn:Hj1.
  assert (answeredBy (peerJoiner j) ctx
            (EvJoin (Candidate name) addr req resp er)) as H1.
  { exists w. by rewrite Hj1. }
  cbv zeta. destruct er as [e|].
  2: { intros [= <- <- <-]. by repeat constructor. }
  destruct (redirects e resp).
  - destruct (Join _ ctx (GetLeader resp) req w1) as [[resp2 er2] w2] eqn:Hj2.
    assert (answeredBy (peerJoiner j) ctx
              (EvJoin LeaderFollow (GetLeader resp) req resp2 er2)) as H2.
    { exists w1. by rewrite Hj2. }
    destruct er2 as [e2|].
    2: { intros [= <- <- <-]. by repeat constructor. }
    destruct (ctxWait ctx 50 w2) as [dn w3] eqn:Hw.
    intros [= <- <- <-]. repeat constructor; try done.
    exists w2. by rewrite Hw.
  - destruct (ctxWait ctx 50 w1) as [dn w3] eqn:Hw.
    intros [= <- <- <-]. repeat constructor; try done.
    exists w1. by rewrite Hw.
Qed.

Lemma rangeLoop_answeredBy j ctx req entries errors w f t w' :
  rangeLoop j ctx req entries errors w = (f, t, w') →
  Forall (answeredBy (peerJoiner j) ctx) t.
Proof.
  revert errors w f t w'.
  induction entries as [|entry rest IH]; intros errors w f t w'.
  - intros [= <- <- <-]. constructor.
  - rewrite rangeLoop_cons.
    destruct (body j ctx req errors entry w) as [[f1 t1] w1] eqn:Hb.
    apply body_answeredBy in Hb. destruct f1 as [leader e|errors1].
    + by intros [= <- <- <-].
    + destruct (rangeLoop j ctx req rest errors1 w1) as [[f2 t2] w2] eqn:Hr.
      intros [= <- <- <-]. apply Forall_app. split; [done | by eapply IH].
Qed.

(** The events of a call are those of its loop. *)
Lemma Do_rangeLoop j sentryEnabled ctx remoteNodes w :
  ∃ f w', rangeLoop j (joinCtx sentryEnabled ctx remoteNodes) (joinRequest j)
                    remoteNodes [] w
          = (f, events (Do j sentryEnabled ctx remoteNodes w), w').
Proof.
  unfold Do, loopThenReturn, mbind, Act_bind.
  destruct (rangeLoop _ _ _ remoteNodes [] w) as [[f t] w1].
  exists f, w1. destruct f; simpl; by rewrite app_nil_r.
Qed.

Lemma Do_answeredBy j sentryEnabled ctx remoteNodes w :
  Forall (answeredBy (peerJoiner j) (joinCtx sentryEnabled ctx remoteNodes))
         (events (Do j sentryEnabled ctx remoteNodes w)).
Proof.
  destruct (Do_rangeLoop j sentryEnabled ctx remoteNodes w) as (f & w' & Hr).
  by eapply rangeLoop_answeredBy.
Qed.

(** X13 (every peer down).  When no [Join] can succeed, whatever the
    destination, and the context is never done, [Do] goes through all the
    entries filed under another id than the local one: it dials each of
    them in order, waits the full 50ms after each, 50ms for each in total,
    and returns the empty address with the error built from [remoteNodes]
    and the failures recorded on the way. *)
Theorem Do_every_peer_down j sentryEnabled ctx remoteNodes w :
  (∀ a rq w0 resp,
     (Join (peerJoiner j) (joinCtx sentryEnabled ctx remoteNodes) a rq w0).1
     ≠ (resp, None)) →
  (∀ ms w0, (ctxWait ctx ms w0).1 = None) →
  attempted (events (Do j sentryEnabled ctx remoteNodes w))
  = candidates (localNodeID j) remoteNodes
  ∧ waited (events (Do j sentryEnabled ctx remoteNodes w))
    = (50 * Z.of_nat (length (candidates (localNodeID j) remoteNodes)))%Z
  ∧ leaderAddr (Do j sentryEnabled ctx remoteNodes w) = ""
  ∧ err (Do j sentryEnabled ctx remoteNodes w)
    = Some (exhausted remoteNodes
              (recordsOf (events (Do j sentryEnabled ctx remoteNodes w)))).
Proof.
  intros Hdown Hnever.
  assert (Forall (λ ev, terminal ev = None)
                 (events (Do j sentryEnabled ctx remoteNodes w))) as Hnone.
  { eapply Forall_impl; [apply Do_answeredBy |].
    intros [site a rq resp [e|]|ms [ce|]] Hans; try done.
    - destruct Hans as [w0 Hw0]. by destruct (Hdown a rq w0 resp).
    - destruct Hans as [w0 Hw0]. rewrite ctxWait_joinCtx, Hnever in Hw0.
      discriminate Hw0. }
  destruct (Do_Loop j sentryEnabled ctx remoteNodes w) as (f & Hloop & Hres).
  destruct (Loop_fell_through _ _ _ _ _ _ Hloop Hnone) as [errors' ->].
  destruct (Loop_attempted _ _ _ _ _ _ Hloop) as (_ & Hall & _).
  destruct (Loop_records _ _ _ _ _ _ Hloop _ eq_refl) as (-> & _ & Hw).
  injection Hres as Hl He. rewrite <- (Hall _ eq_refl). by repeat split.
Qed.

(** X14 (a context that is never done).  Under a context that is never
    done, [context.Background()] for one, no wait of a call is cut short
    and [Do] never returns a context error: it returns a nil error or the
    error built when the candidates have run out. *)
Theorem Do_never_done j sentryEnabled ctx remoteNodes w :
  (∀ ms w0, (ctxWait ctx ms w0).1 = None) →
  (∀ ms d, EvSelect ms d ∈ events (Do j sentryEnabled ctx remoteNodes w) →
           d = None)
  ∧ (err (Do j sentryEnabled ctx remoteNodes w) = None
     ∨ ∃ errors, err (Do j sentryEnabled ctx remoteNodes w)
                 = Some (exhausted remoteNodes errors)).
Proof.
  intros Hnever.
  assert (∀ ms d,
            EvSelect ms d ∈ events (Do j sentryEnabled ctx remoteNodes w) →
            d = None) as Hsel.
  { intros ms d Hin.
    pose proof (Do_answeredBy j sentryEnabled ctx remoteNodes w) as Hans.
    rewrite Forall_forall in Hans. destruct (Hans _ Hin) as [w0 Hw0].
    by rewrite ctxWait_joinCtx, Hnever in Hw0. }
  split; [done |].
  destruct (Do_Loop j sentryEnabled ctx remoteNodes w) as (f & Hloop & Hres).
  pose proof (Loop_returnsAtTerminal _ _ _ _ _ _ Hloop) as Hshape.
  destruct f as [leader e|errors]; simpl in Hshape.
  - destruct Hshape as (t0 & ev & Heq & _ & Hterm). injection Hres as _ He.
    destruct ev as [site a rq resp [e'|]|ms [ce|]]; try discriminate Hterm.
    + injection Hterm as _ <-. by left.
    + assert (Some ce = None) as Habs; [| discriminate Habs].
      apply (Hsel ms). rewrite Heq. apply elem_of_app. right.
      by apply list_elem_of_singleton.
  - injection Hres as _ He. right. by exists errors.
Qed.

Lemma body_first j ctx req errors name addr w :
  name ≠ localNodeID j →
  ∃ f t' w',
    body j ctx req errors (name, addr) w
    = (f,
       EvJoin (Candidate name) addr req
              (Join (peerJoiner j) ctx addr req w).1.1
              (Join (peerJoiner j) ctx addr req w).1.2 :: t',
       w').
Proof.
  intros Hne. rewrite body_other by done.
  destruct (Join _ ctx addr req w) as [[resp [e|]] w1]; cbv zeta;
    [| by eexists _, _, _].
  destruct (redirects e resp).
  - destruct (Join _ ctx (GetLeader resp) req w1) as [[resp2 [e2|]] w2].
    + destruct (ctxWait ctx 50 w2) as [dn w3]. by eexists _, _, _.
    + by eexists _, _, _.
  - destruct (ctxWait ctx 50 w1) as [dn w3]. by eexists _, _, _.
Qed.

(** X15 (the first attempt is unconditional).  [Do] dials the first entry
    filed under another id than the local one before it looks at the
    context at all: the first event of the call is the [Join] to that
    entry's address, with what the peer joiner answers in the world the
    call started in, also when the context is done from the start. *)
Theorem Do_first_attempt j sentryEnabled ctx remoteNodes w name addr rest :
  candidates (localNodeID j) remoteNodes = (name, addr) :: rest →
  ∃ t',
    events (Do j sentryEnabled ctx remoteNodes w)
    = EvJoin (Candidate name) addr (joinRequest j)
             (Join (peerJoiner j) (joinCtx sentryEnabled ctx remoteNodes) addr
                   (joinRequest j) w).1.1
             (Join (peerJoiner j) (joinCtx sentryEnabled ctx remoteNodes) addr
                   (joinRequest j) w).1.2
      :: t'.
Proof.
  intros Hcand.
  assert (name ≠ localNodeID j) as Hne.
  { assert ((name, addr) ∈ candidates (localNodeID j) remoteNodes) as Hin.
    { rewrite Hcand. apply list_elem_of_here. }
    unfold candidates in Hin. by apply list_elem_of_filter in Hin as [? _]. }
  destruct (Do_rangeLoop j sentryEnabled ctx remoteNodes w) as (f & w' & Hr).
  rewrite <- rangeLoop_candidates, Hcand, rangeLoop_cons in Hr.
  destruct (body_first j (joinCtx sentryEnabled ctx remoteNodes)
              (joinRequest j) []
              name addr w Hne) as (f1 & t1 & w1 & Hb).
  rewrite Hb in Hr. destruct f1 as [leader e|errors1].
  - injection Hr as _ <- _. by exists t1.
  - destruct (rangeLoop _ _ _ rest errors1 w1) as [[f2 t2] w2].
    injection Hr as _ <- _. by exists (t1 ++ t2).
Qed.

Lemma rangeLoop_app_Return j ctx req pre post errors w leader e t w1 :
  rangeLoop j ctx req pre errors w = (Return leader e, t, w1) →
  rangeLoop j ctx req (pre ++ post) errors w = (Return leader e, t, w1).
Proof.
  revert errors w t.
  induction pre as [|entry pre IH]; intros errors w t; [done |].
  rewrite <- app_comm_cons, !rangeLoop_cons.
  destruct (body j ctx req errors entry w) as [[[leader1 e1|errors1] t1] w2];
    [done |].
  destruct (rangeLoop j ctx req pre errors1 w2) as [[f2 t2] w3] eqn:Hr.
  intros [= -> <- <-]. by rewrite (IH _ _ _ Hr).
Qed.

(** X16 (entries after the return).  Once a call over the entries [pre] has
    ended with a success or a cancellation, entries that come later in the
    iteration matter only through the servers attached to the tracing
    span.  With telemetry off, or with a peer joiner that answers alike
    whichever of the two server lists the span in its context carries, the
    call over [pre] followed by [post] returns the same address and error,
    sends the same [Join]s, waits alike and leaves the same world behind. *)
Theorem Do_later_entries_irrelevant j sentryEnabled ctx pre post w :
  (∀ a rq w0,
     Join (peerJoiner j) (joinCtx sentryEnabled ctx (pre ++ post)) a rq w0
     = Join (peerJoiner j) (joinCtx sentryEnabled ctx pre) a rq w0) →
  Exists (λ ev, is_Some (terminal ev))
         (events (Do j sentryEnabled ctx pre w)) →
  outcome (Do j sentryEnabled ctx (pre ++ post) w)
  = outcome (Do j sentryEnabled ctx pre w).
Proof.
  intros Hjoin Hex. rewrite !outcome_Do.
  unfold loopThenReturn, mbind, Act_bind.
  rewrite (rangeLoop_ctx_ext j _ (joinCtx sentryEnabled ctx pre))
    by (intros; by rewrite ?Hjoin, ?ctxWait_joinCtx).
  destruct (Do_rangeLoop j sentryEnabled ctx pre w) as (f & w' & Hr).
  destruct f as [leader e|errors].
  - by rewrite (rangeLoop_app_Return _ _ _ _ post _ _ _ _ _ _ Hr), Hr.
  - apply rangeLoop_Loop, Loop_returnsAtTerminal in Hr. simpl in Hr.
    apply Exists_exists in Hex as (ev & Hin & [x Hx]).
    rewrite Forall_forall in Hr. by rewrite (Hr _ Hin) in Hx.
Qed.

End Answers.

(** ** The address a call returns, and the text of its last error *)

Section Results.
Import bootstrap run GoFmt.
Implicit Types (l : list (string * string)) (errors : list string).

(** X17 (the address returned was dialled).  When [Do] returns a nil error,
    the address it returns is one it has just dialled with success: the
    address of an entry of [remoteNodes] filed under another id than the
    local one, or the non-empty leader address that the resource-exhausted
    answer of such an entry named. *)
Theorem Do_returns_dialled_address {W} (j : Joiner W) sentryEnabled
    (ctx : Ctx W) remoteNodes (w : W) :
  err (Do j sentryEnabled ctx remoteNodes w) = None →
  (∃ name, name ≠ localNodeID j
           ∧ (name, leaderAddr (Do j sentryEnabled ctx remoteNodes w))
             ∈ remoteNodes)
  ∨ (leaderAddr (Do j sentryEnabled ctx remoteNodes w) ≠ ""
     ∧ ∃ name a0 resp0 e0,
         name ≠ localNodeID j ∧ (name, a0) ∈ remoteNodes
         ∧ EvJoin (Candidate name) a0 (joinRequest j) resp0 (Some e0)
           ∈ events (Do j sentryEnabled ctx remoteNodes w)
         ∧ status.Code (status.Convert e0) = codes.ResourceExhausted
         ∧ leaderAddr (Do j sentryEnabled ctx remoteNodes w)
           = GetLeader resp0).
Proof.
  destruct (Do_Loop j sentryEnabled ctx remoteNodes w) as (f & Hloop & Hres).
  intros Hnil. pose proof (Loop_returnsAtTerminal _ _ _ _ _ _ Hloop) as Hshape.
  destruct f as [leader e|errors]; simpl in Hshape.
  2: { injection Hres as _ He. by rewrite He in Hnil. }
  injection Hres as Hl He. rewrite Hnil in He. subst e. rewrite Hl.
  destruct Hshape as (t0 & ev & Heq & _ & Hterm).
  destruct ev as [site a rq resp [e'|]|ms [ce|]]; try discriminate Hterm.
  injection Hterm as ->.
  assert (EvJoin site leader rq resp None
            ∈ events (Do j sentryEnabled ctx remoteNodes w)) as Hin.
  { rewrite Heq. apply elem_of_app. right. by apply list_elem_of_singleton. }
  destruct (Loop_destinations _ _ _ _ _ _ _ _ _ _ _ Hloop Hin) as [_ Hs].
  destruct site as [name|].
  - left. by exists name.
  - right. destruct Hs as (name & a0 & resp0 & e0 & Hin0 & Hred & ->).
    apply redirects_true in Hred as [Hcode Hleader]. split; [done |].
    destruct (Loop_destinations _ _ _ _ _ _ _ _ _ _ _ Hloop Hin0)
      as [_ [Hne Hent]].
    by exists name, a0, resp0, e0.
Qed.

Lemma leb_trans (a b c : string) :
  String.leb a b = true → String.leb b c = true → String.leb a c = true.
Proof.
  unfold String.leb.
  destruct (String.compare a b) eqn:Hab; [| | done];
    destruct (String.compare b c) eqn:Hbc; try done; intros _ _.
  - apply String.compare_eq_iff in Hab, Hbc. subst.
    pose proof (proj2 (OrderedTypeEx.String_as_OT.cmp_eq c c) eq_refl) as Hc.
    unfold OrderedTypeEx.String_as_OT.cmp in Hc. by rewrite Hc.
  - apply String.compare_eq_iff in Hab. subst. by rewrite Hbc.
  - apply String.compare_eq_iff in Hbc. subst. by rewrite Hab.
  - apply OrderedTypeEx.String_as_OT.cmp_lt in Hab, Hbc.
    pose proof (OrderedTypeEx.String_as_OT.lt_trans _ _ _ Hab Hbc) as Hac.
    apply OrderedTypeEx.String_as_OT.cmp_lt in Hac.
    unfold OrderedTypeEx.String_as_OT.cmp in Hac. by rewrite Hac.
Qed.

Lemma leb_false (a b : string) :
  String.leb a b = false → String.leb b a = true.
Proof. intros Hf. destruct (String.leb_total a b) as [H|H]; congruence. Qed.

Lemma insertByKey_comm (a b : string * string) l :
  a.1 ≠ b.1 →
  insertByKey a (insertByKey b l) = insertByKey b (insertByKey a l).
Proof.
  intros Hne. induction l as [|x l IH].
  - cbn [insertByKey].
    destruct (String.leb a.1 b.1) eqn:Hab, (String.leb b.1 a.1) eqn:Hba;
      try done.
    + destruct Hne. by apply String.leb_antisym.
    + apply leb_false in Hab. congruence.
  - cbn [insertByKey].
    destruct (String.leb a.1 x.1) eqn:Hax, (String.leb b.1 x.1) eqn:Hbx;
      cbn [insertByKey]; rewrite ?Hax, ?Hbx.
    + destruct (String.leb a.1 b.1) eqn:Hab, (String.leb b.1 a.1) eqn:Hba;
        try done.
      * destruct Hne. by apply String.leb_antisym.
      * apply leb_false in Hab. congruence.
    + destruct (String.leb b.1 a.1) eqn:Hba; [| done].
      rewrite (leb_trans _ _ _ Hba Hax) in Hbx. discriminate Hbx.
    + destruct (String.leb a.1 b.1) eqn:Hab; [| done].
      rewrite (leb_trans _ _ _ Hab Hbx) in Hax. discriminate Hax.
    + by rewrite IH.
Qed.

Lemma sortByKey_Permutation l l' :
  l ≡ₚ l' → NoDup l.*1 → sortByKey l = sortByKey l'.
Proof.
  unfold sortByKey. induction 1 as [|x l l' Hp IH|x y l|l l' l'' Hp IH Hp' IH'];
    intros Hnd.
  - done.
  - cbn [foldr]. rewrite IH; [done |]. by apply NoDup_cons in Hnd as [_ ?].
  - cbn [foldr]. apply insertByKey_comm.
    rewrite !fmap_cons in Hnd. apply NoDup_cons in Hnd as [Hnin _].
    intros Heq. apply Hnin. rewrite Heq. apply list_elem_of_here.
  - rewrite IH by done. apply IH'. by rewrite <- Hp.
Qed.

(** X18 (the last error does not show the order of the loop).  The text
    [Do] builds when the candidates have run out names the entries of
    [remoteNodes] sorted by node id: for a map, whose keys are pairwise
    different, the error is the same whichever order the [range] loop took
    the entries in, as long as the same failures were recorded in the same
    order. *)
Theorem exhausted_range_order l l' errors :
  l ≡ₚ l' → NoDup l.*1 → exhausted l errors = exhausted l' errors.
Proof.
  intros Hp Hnd. unfold exhausted, fmtMap.
  by rewrite (sortByKey_Permutation _ _ Hp Hnd).
Qed.

End Results.

(** ** The further properties on concrete calls *)

Section FurtherWitnesses.
Import bootstrap cluster scenario run.

(** [node2] names [addr3] as leader and [addr3] accepts: both [Join]s carry
    the request of [node1]. *)
Lemma Do_sends_what_NewJoiner_got_witness :
  req1 = mkJoinPeerRequest "node1" addr1 true
  ∧ Candidate "node2" ≠ Candidate "node1".
Proof.
  refine (Do_sends_what_NewJoiner_got
            (tablePeer [(addr2, notLeader addr3); (addr3, accepted)])
            "node1" addr1 true false background threeNodes 0
            (Candidate "node2") addr2 req1
            (Some (mkJoinPeerResponse addr3))
            (Some (statusError codes.ResourceExhausted "not the leader")) _).
  vm_compute. apply list_elem_of_here.
Defined.

(** The only candidate refuses: the wait comes right after its [Join]. *)
Lemma Do_waits_only_after_failure_witness :
  50%Z = 50%Z
  ∧ ∃ t0 site a rq resp e,
      [EvJoin (Candidate "node2") addr2 req1 None (Some refusal)]
      = t0 ++ [EvJoin site a rq resp (Some e)]
      ∧ endsTurn site e resp = true.
Proof.
  refine (Do_waits_only_after_failure
            (node1 (tablePeer [])) false background [("node2", addr2)] 0
            [EvJoin (Candidate "node2") addr2 req1 None (Some refusal)]
            50 None [] _).
  reflexivity.
Defined.

(** [peerA] names [addr3]: the follow-up is the very next event. *)
Lemma Do_follows_up_one_hop_witness :
  ∃ t0 name a0 rq0 resp0 e0,
    [EvJoin (Candidate "peerA") addr2 req1 (Some (mkJoinPeerResponse addr3))
            (Some (statusError codes.ResourceExhausted "not the leader"))]
    = t0 ++ [EvJoin (Candidate name) a0 rq0 resp0 (Some e0)]
    ∧ status.Code (status.Convert e0) = codes.ResourceExhausted
    ∧ GetLeader resp0 ≠ ""
    ∧ addr3 = GetLeader resp0.
Proof.
  refine (Do_follows_up_one_hop
            (node1 (tablePeer [(addr2, notLeader addr3); (addr3, accepted)]))
            false background [("peerA", addr2); ("peerB", addr3)] 0
            [EvJoin (Candidate "peerA") addr2 req1
                    (Some (mkJoinPeerResponse addr3))
                    (Some (statusError codes.ResourceExhausted
                                       "not the leader"))]
            addr3 req1 (Some (mkJoinPeerResponse "")) None [] _).
  reflexivity.
Defined.

(** Two candidates refuse: the second is dialled after the first wait. *)
Lemma Do_attempts_after_full_wait_witness :
  [EvJoin (Candidate "peerA") addr2 req1 None (Some refusal);
   EvSelect 50 None] = []
  ∨ ∃ t0, [EvJoin (Candidate "peerA") addr2 req1 None (Some refusal);
           EvSelect 50 None] = t0 ++ [EvSelect 50 None].
Proof.
  refine (Do_attempts_after_full_wait
            (node1 (tablePeer [])) false background
            [("peerA", addr2); ("peerB", addr3)] 0
            [EvJoin (Candidate "peerA") addr2 req1 None (Some refusal);
             EvSelect 50 None]
            "peerB" addr3 req1 None (Some refusal) [EvSelect 50 None] _).
  reflexivity.
Defined.

(** [node2] answers not-found and names [addr3] all the same: [addr3] is
    not dialled as a leader; it is dialled as the candidate [node3] after
    the wait. *)
Lemma Do_not_redirected_witness :
  outcome
    (Do (node1 (tablePeer
                  [(addr2, (Some (mkJoinPeerResponse addr3),
                            Some (statusError codes.NotFound "no leader")));
                   (addr3, accepted)]))
        false background
        ([("node1", addr1)] ++ ("node2", addr2) :: [("node3", addr3)]) 0)
  = (addr3, None,
     [] ++ [EvJoin (Candidate "node2") addr2 req1
                   (Some (mkJoinPeerResponse addr3))
                   (Some (statusError codes.NotFound "no leader"));
            EvSelect 50 None]
        ++ [EvJoin (Candidate "node3") addr3 req1
                   (Some (mkJoinPeerResponse "")) None],
     1).
Proof.
  refine (Do_not_redirected
            (node1 (tablePeer
                      [(addr2, (Some (mkJoinPeerResponse addr3),
                                Some (statusError codes.NotFound "no leader")));
                       (addr3, accepted)]))
            false background [("node1", addr1)] [("node3", addr3)]
            "node2" addr2 0 0 [] [] _ _
            (Some (mkJoinPeerResponse addr3))
            (statusError codes.NotFound "no leader") 0 _ _).
  - reflexivity.
  - discriminate.
  - reflexivity.
  - left. discriminate.
Defined.

(** [node2] points to [addr3], which refuses as a leader and again as the
    candidate [node3]: two candidates, two records. *)
Lemma Do_one_record_per_candidate_witness :
  ∃ errors,
    err (Do (node1 (tablePeer [(addr2, notLeader addr3)]))
            false background threeNodes 0)
    = Some (exhausted threeNodes errors)
    ∧ Forall2 (recordedFor
                 (events (Do (node1 (tablePeer [(addr2, notLeader addr3)]))
                             false background threeNodes 0)))
              (candidates
                 (localNodeID (node1 (tablePeer [(addr2, notLeader addr3)])))
                 threeNodes)
              errors.
Proof.
  apply (Do_one_record_per_candidate
           (node1 (tablePeer [(addr2, notLeader addr3)]))
           false background threeNodes 0).
  vm_compute. by repeat constructor.
Defined.

(** Nobody listens and the context is never done. *)
Lemma Do_every_peer_down_witness :
  attempted (events (Do (node1 (tablePeer [])) false background threeNodes 0))
  = candidates (localNodeID (node1 (tablePeer []))) threeNodes
  ∧ waited (events (Do (node1 (tablePeer [])) false background threeNodes 0))
    = (50 * Z.of_nat
              (length (candidates (localNodeID (node1 (tablePeer [])))
                                  threeNodes)))%Z
  ∧ leaderAddr (Do (node1 (tablePeer [])) false background threeNodes 0) = ""
  ∧ err (Do (node1 (tablePeer [])) false background threeNodes 0)
    = Some (exhausted threeNodes
              (recordsOf (events (Do (node1 (tablePeer [])) false background
                                     threeNodes 0)))).
Proof.
  refine (Do_every_peer_down (node1 (tablePeer [])) false background
                             threeNodes 0 _ _).
  - intros a rq w0 resp. discriminate.
  - intros ms w0. reflexivity.
Defined.

(** Under [background] a refusal is followed by a full wait and the call
    ends with [node3]'s acceptance. *)
Lemma Do_never_done_witness :
  (∀ ms d,
     EvSelect ms d
       ∈ events (Do (node1 (tablePeer [(addr3, accepted)])) false background
                    threeNodes 0) →
     d = None)
  ∧ (err (Do (node1 (tablePeer [(addr3, accepted)])) false background
             threeNodes 0) = None
     ∨ ∃ errors,
         err (Do (node1 (tablePeer [(addr3, accepted)])) false background
                 threeNodes 0)
         = Some (exhausted threeNodes errors)).
Proof.
  refine (Do_never_done (node1 (tablePeer [(addr3, accepted)])) false
                        background threeNodes 0 _).
  intros ms w0. reflexivity.
Defined.

(** The context is cancelled before the call starts; [node2] is dialled
    all the same. *)
Lemma Do_first_attempt_witness :
  ∃ t',
    events (Do (node1 (tablePeer [])) false (cancelledDuring 0)
               [("node1", addr1); ("node2", addr2)] 0)
    = EvJoin (Candidate "node2") addr2 (joinRequest (node1 (tablePeer [])))
             (Join (peerJoiner (node1 (tablePeer [])))
                   (joinCtx false (cancelledDuring 0)
                            [("node1", addr1); ("node2", addr2)]) addr2
                   (joinRequest (node1 (tablePeer []))) 0).1.1
             (Join (peerJoiner (node1 (tablePeer [])))
                   (joinCtx false (cancelledDuring 0)
                            [("node1", addr1); ("node2", addr2)]) addr2
                   (joinRequest (node1 (tablePeer []))) 0).1.2
      :: t'.
Proof.
  refine (Do_first_attempt (node1 (tablePeer [])) false (cancelledDuring 0)
                           [("node1", addr1); ("node2", addr2)] 0
                           "node2" addr2 [] _).
  reflexivity.
Defined.

(** [peerA] names [addr3], which accepts: the address returned is the
    leader [peerA] named. *)
Lemma Do_returns_dialled_address_witness :
  (∃ name,
     name ≠ localNodeID (node1 (tablePeer [(addr2, notLeader addr3);
                                           (addr3, accepted)]))
     ∧ (name,
        leaderAddr (Do (node1 (tablePeer [(addr2, notLeader addr3);
                                          (addr3, accepted)]))
                       false background [("peerA", addr2)] 0))
       ∈ [("peerA", addr2)])
  ∨ (leaderAddr (Do (node1 (tablePeer [(addr2, notLeader addr3);
                                       (addr3, accepted)]))
                    false background [("peerA", addr2)] 0) ≠ ""
     ∧ ∃ name a0 resp0 e0,
         name ≠ localNodeID (node1 (tablePeer [(addr2, notLeader addr3);
                                               (addr3, accepted)]))
         ∧ (name, a0) ∈ [("peerA", addr2)]
         ∧ EvJoin (Candidate name) a0
                  (joinRequest (node1 (tablePeer [(addr2, notLeader addr3);
                                                  (addr3, accepted)])))
                  resp0 (Some e0)
           ∈ events (Do (node1 (tablePeer [(addr2, notLeader addr3);
                                           (addr3, accepted)]))
                        false background [("peerA", addr2)] 0)
         ∧ status.Code (status.Convert e0) = codes.ResourceExhausted
         ∧ leaderAddr (Do (node1 (tablePeer [(addr2, notLeader addr3);
                                             (addr3, accepted)]))
                          false background [("peerA", addr2)] 0)
           = GetLeader resp0).
Proof.
  refine (Do_returns_dialled_address
            (node1 (tablePeer [(addr2, notLeader addr3); (addr3, accepted)]))
            false background [("peerA", addr2)] 0 _).
  reflexivity.
Defined.

(** The three nodes, met in two different orders. *)
Lemma exhausted_range_order_witness :
  exhausted threeNodes ["node2(10.0.0.2:8300): refused"]
  = exhausted [("node3", addr3); ("node1", addr1); ("node2", addr2)]
              ["node2(10.0.0.2:8300): refused"].
Proof.
  refine (exhausted_range_order
            threeNodes [("node3", addr3); ("node1", addr1); ("node2", addr2)]
            ["node2(10.0.0.2:8300): refused"] _ _).
  - exact (perm_trans
             (perm_skip ("node1", addr1)
                (perm_swap ("node3", addr3) ("node2", addr2) []))
             (perm_swap ("node3", addr3) ("node1", addr1)
                [("node2", addr2)])).
  - by apply (bool_decide_unpack _).
Defined.

(** [node2] accepts; the node after it is never reached.  Telemetry is on,
    and the peers answer by the address dialled alone. *)
Lemma Do_later_entries_irrelevant_witness :
  outcome (Do (node1 (tablePeer [(addr2, accepted)])) true background
              ([("node1", addr1); ("node2", addr2)]
               ++ [("node3", addr3)]) 0)
  = outcome (Do (node1 (tablePeer [(addr2, accepted)])) true background
                [("node1", addr1); ("node2", addr2)] 0).
Proof.
  refine (Do_later_entries_irrelevant
            (node1 (tablePeer [(addr2, accepted)])) true background
            [("node1", addr1); ("node2", addr2)] [("node3", addr3)] 0 _ _).
  - intros a rq w0. reflexivity.
  - vm_compute. apply Exists_cons_hd. by eexists.
Defined.

(** The local entry stands between two nodes that refuse.  Telemetry is on,
    and the peers answer by the address dialled alone. *)
Lemma Do_local_entries_inert_witness :
  events (Do (node1 (tablePeer [])) true background
             (candidates (localNodeID (node1 (tablePeer [])))
                         [("node2", addr2); ("node1", addr1);
                          ("node3", addr3)]) 0)
  = events (Do (node1 (tablePeer [])) true background
               [("node2", addr2); ("node1", addr1); ("node3", addr3)] 0)
  ∧ world (Do (node1 (tablePeer [])) true background
              (candidates (localNodeID (node1 (tablePeer [])))
                          [("node2", addr2); ("node1", addr1);
                           ("node3", addr3)]) 0)
    = world (Do (node1 (tablePeer [])) true background
                [("node2", addr2); ("node1", addr1); ("node3", addr3)] 0)
  ∧ leaderAddr
      (Do (node1 (tablePeer [])) true background
          (candidates (localNodeID (node1 (tablePeer [])))
                      [("node2", addr2); ("node1", addr1);
                       ("node3", addr3)]) 0)
    = leaderAddr (Do (node1 (tablePeer [])) true background
                     [("node2", addr2); ("node1", addr1); ("node3", addr3)] 0)
  ∧ (err (Do (node1 (tablePeer [])) true background
             (candidates (localNodeID (node1 (tablePeer [])))
                         [("node2", addr2); ("node1", addr1);
                          ("node3", addr3)]) 0)
     = err (Do (node1 (tablePeer [])) true background
               [("node2", addr2); ("node1", addr1); ("node3", addr3)] 0)
     ∨ ∃ errors,
         err (Do (node1 (tablePeer [])) true background
                 (candidates (localNodeID (node1 (tablePeer [])))
                             [("node2", addr2); ("node1", addr1);
                              ("node3", addr3)]) 0)
         = Some (exhausted
                   (candidates (localNodeID (node1 (tablePeer [])))
                               [("node2", addr2); ("node1", addr1);
                                ("node3", addr3)])
                   errors)
         ∧ err (Do (node1 (tablePeer [])) true background
                   [("node2", addr2); ("node1", addr1); ("node3", addr3)] 0)
           = Some (exhausted
                     [("node2", addr2); ("node1", addr1); ("node3", addr3)]
                     errors)).
Proof.
  refine (Do_local_entries_inert
            (node1 (tablePeer [])) true background
            [("node2", addr2); ("node1", addr1); ("node3", addr3)] 0 _).
  intros a rq w0. reflexivity.
Defined.

End FurtherWitnesses.
